(** * Anomaly scoring engine of analyzer/anomaly_detector.py

    A shallow embedding of [AnomalyScore] and [AnomalyDetector] and the
    properties of the scoring pipeline: signal computation, min-max
    normalisation, weighted combination, ranking, top-N retrieval and the
    textual explanation.

    Numbers are modelled as the interpreter has them: a Python [float] (and a
    numpy [float64]) is an IEEE 754 binary64 value, here a primitive [float];
    a Python [int] is a [Z]; item ids, positions and ranks, which the code only
    ever produces from [range] and [enumerate], are [nat].  A [dict] is an
    association list in insertion order, because the code reads
    [dict.values()] positionally. *)

From Stdlib Require Import Floats ZArith String Ascii Bool Lia.
From Stdlib Require Import DecimalString PeanoNat List Permutation Sorted.
Import ListNotations.

Set Warnings "-inexact-float".

(** ** The Python runtime the module relies on *)

Module Py.

(** The exceptions the modelled code can raise: a missing [dict] key, and
    numpy's reduction of an empty array. *)
Inductive exn : Type :=
| KeyError
| ValueError.

Inductive result (A : Type) : Type :=
| Ok (a : A)
| Raise (e : exn).

Arguments Ok {A} a.
Arguments Raise {A} e.

Definition bind {A B : Type} (c : result A) (f : A -> result B) : result B :=
  match c with
  | Ok a => f a
  | Raise e => Raise e
  end.

(** [for x in xs: acc = body(acc, x)], stopping at the first exception. *)
Fixpoint for_each {A S : Type} (body : S -> A -> result S) (xs : list A) (acc : S)
  : result S :=
  match xs with
  | [] => Ok acc
  | x :: rest => bind (body acc x) (for_each body rest)
  end.

(** [range(n)] *)
Definition range (n : nat) : list nat := seq 0 n.

(** *** Insertion-ordered dictionaries with integer keys *)

Definition dict (V : Type) : Type := list (nat * V).

Fixpoint dict_find {V : Type} (key : nat) (d : dict V) : option V :=
  match d with
  | [] => None
  | (k', v) :: rest => if Nat.eqb key k' then Some v else dict_find key rest
  end.

(** [d[key]] *)
Definition dict_get {V : Type} (d : dict V) (key : nat) : result V :=
  match dict_find key d with
  | Some v => Ok v
  | None => Raise KeyError
  end.

(** [key in d] *)
Definition dict_mem {V : Type} (key : nat) (d : dict V) : bool :=
  match dict_find key d with
  | Some _ => true
  | None => false
  end.

(** [d[key] = v]: an existing key keeps its position, a new key goes last. *)
Fixpoint dict_set {V : Type} (key : nat) (v : V) (d : dict V) : dict V :=
  match d with
  | [] => [(key, v)]
  | (k', v') :: rest =>
      if Nat.eqb key k' then (k', v) :: rest else (k', v') :: dict_set key v rest
  end.

Definition dict_keys {V : Type} (d : dict V) : list nat := map fst d.

(** [d.values()], in insertion order. *)
Definition dict_values {V : Type} (d : dict V) : list V := map snd d.

(** [{i: xs[i] for i in range(len(xs))}] *)
Definition dict_enumerate {V : Type} (xs : list V) : dict V :=
  combine (range (length xs)) xs.

(** [{i: v for i in range(n)}] *)
Definition dict_const {V : Type} (n : nat) (v : V) : dict V :=
  map (fun i => (i, v)) (range n).

(** [Counter()[key]]: a missing key reads as zero and is not inserted. *)
Definition counter_get (c : dict Z) (key : nat) : Z :=
  match dict_find key c with
  | Some v => v
  | None => 0%Z
  end.

(** [c[key] += 1] on a [Counter]. *)
Definition counter_incr (c : dict Z) (key : nat) : dict Z :=
  dict_set key (counter_get c key + 1)%Z c.

(** [xs.append(x)] *)
Definition append {A : Type} (xs : list A) (x : A) : list A := xs ++ [x].

(** [xs[:n]]: a negative stop counts from the end of the list. *)
Definition slice_to {A : Type} (xs : list A) (n : Z) : list A :=
  let len := Z.of_nat (length xs) in
  let stop := if (n <? 0)%Z then Z.max 0 (len + n) else Z.min n len in
  firstn (Z.to_nat stop) xs.

(** [xs.sort(key=key, reverse=True)] for float keys.  The interpreter sorts
    with a stable merge sort that only ever asks [key a < key b]; a stable
    sort has one possible outcome whenever the keys are totally ordered, and
    this insertion sort produces it.  An element travels to the right past
    the elements whose key is strictly greater, so that equal keys keep
    their original order.  With a NaN among the keys the outcome of a sort
    depends on the comparisons it happens to make; when every [<] it asks
    answers false, as on the lists with one NaN evaluated below, the
    interpreter finds a single run and leaves the list as it is, and so
    does this function. *)
Fixpoint insert_desc {A : Type} (key : A -> float) (x : A) (sorted : list A) : list A :=
  match sorted with
  | [] => [x]
  | y :: rest =>
      if (key x <? key y)%float then y :: insert_desc key x rest
      else x :: y :: rest
  end.

Definition sort_desc {A : Type} (key : A -> float) (xs : list A) : list A :=
  fold_right (insert_desc key) [] xs.

(** *** String formatting *)

Definition digit_char (d : Z) : string :=
  String (ascii_of_nat (48 + Z.to_nat d)) EmptyString.

(** The [n] low decimal digits of [v], most significant first. *)
Fixpoint fixed_digits (n : nat) (v : Z) : string :=
  match n with
  | O => EmptyString
  | S n' => (fixed_digits n' (v / 10) ++ digit_char (v mod 10))%string
  end.

(** [str(z)] *)
Definition str_of_int (z : Z) : string := NilZero.string_of_int (Z.to_int z).

(** The integer nearest to [num / den] ([den > 0]), ties to even. *)
Definition round_half_even (num den : Z) : Z :=
  let q := (num / den)%Z in
  let r := (num mod den)%Z in
  if (2 * r <? den)%Z then q
  else if (den <? 2 * r)%Z then (q + 1)%Z
  else if Z.even q then q else (q + 1)%Z.

Definition sign_str (negative : bool) : string :=
  if negative then "-"%string else EmptyString.

(** [format(x, ".<prec>f")]: the exact binary value of [x], correctly rounded
    to [prec] decimals. *)
Definition format_f (prec : nat) (x : float) : string :=
  let scale := (10 ^ Z.of_nat prec)%Z in
  let point := match prec with O => EmptyString | S _ => "."%string end in
  match Prim2SF x with
  | S754_nan => "nan"%string
  | S754_infinity s => (sign_str s ++ "inf")%string
  | S754_zero s => (sign_str s ++ "0" ++ point ++ fixed_digits prec 0)%string
  | S754_finite s m e =>
      let num := (Z.pos m * scale * 2 ^ Z.max e 0)%Z in
      let den := (2 ^ Z.max (- e) 0)%Z in
      let n := round_half_even num den in
      (sign_str s ++ str_of_int (n / scale) ++ point
         ++ fixed_digits prec (n mod scale))%string
  end.

(** [float(z)] for a small non-negative integer. *)
Definition float_of_int (z : Z) : float := of_uint63 (Uint63.of_Z z).

End Py.

Import Py.

Declare Scope py_scope.
Delimit Scope py_scope with py.
Notation "x <- c ;; k" := (bind c (fun x => k))
  (at level 61, c at next level, right associativity) : py_scope.
Notation "' p <- c ;; k" := (bind c (fun x => let p := x in k))
  (at level 61, p pattern, c at next level, right associativity) : py_scope.
Open Scope py_scope.

(** [a > b] on floats: false as soon as one side is NaN. *)
Definition gtb (a b : float) : bool := (b <? a)%float.

(** ** The numpy operations the module relies on *)

Module Np.

(** [np.maximum] and [np.minimum] on two scalars: a NaN operand wins. *)
Definition maximum (a b : float) : float :=
  if (b <=? a)%float || is_nan a then a else b.

Definition minimum (a b : float) : float :=
  if (a <=? b)%float || is_nan a then a else b.

(** [arr.max()] and [arr.min()]: a left-to-right reduction; numpy raises
    [ValueError] on an array of size zero. *)
Definition max (arr : list float) : result float :=
  match arr with
  | [] => Raise ValueError
  | x :: rest => Ok (fold_left maximum rest x)
  end.

Definition min (arr : list float) : result float :=
  match arr with
  | [] => Raise ValueError
  | x :: rest => Ok (fold_left minimum rest x)
  end.

(** [np.mean] of a non-empty list: the sum over the length.  (numpy adds
    eight or more terms blockwise, which can move the last bit of the sum;
    nothing below depends on it.) *)
Definition mean (xs : list float) : float :=
  (fold_left PrimFloat.add xs 0 / float_of_int (Z.of_nat (length xs)))%float.

End Np.

(** ** The data model *)

Record AnomalyScore : Type := mkAnomalyScore {
  item_id : nat;
  knn_distance : float;
  lof_score : float;
  reverse_knn_count : Z;
  isolation_score : float;
  neighbors : list nat;
  rank : nat
}.

(** [score.rank = r] *)
Definition set_rank (r : nat) (s : AnomalyScore) : AnomalyScore :=
  mkAnomalyScore (item_id s) (knn_distance s) (lof_score s)
    (reverse_knn_count s) (isolation_score s) (neighbors s) r.

(** The index the detector reads, as the three calls the code makes on it.
    One value of this record is one snapshot: every call sees the same
    graph. *)
Record HNSWIndex : Type := mkIndex {
  count : nat;
  get_neighbors : nat -> Z -> list (nat * float);
  get_all_embeddings : list (list float)
}.

Record AnomalyDetector : Type := mkDetector {
  index : HNSWIndex;
  k : Z
}.

(** ** explain_anomaly *)

Open Scope string_scope.

(** The body of [explain_anomaly], statement by statement: [reasons] is
    threaded through the three checks and joined at the end. *)
Definition explain_anomaly (score : AnomalyScore) : string :=
  let reasons : list string := [] in
  let reasons :=
    if gtb (knn_distance score) 0.5 then
      append reasons ("High distance to neighbors (" ++ format_f 3 (knn_distance score)
                        ++ ") - isolated in embedding space")
    else if gtb (knn_distance score) 0.3 then
      append reasons ("Moderate distance to neighbors ("
                        ++ format_f 3 (knn_distance score) ++ ")")
    else reasons in
  let reasons :=
    if gtb (lof_score score) 1.5 then
      append reasons ("High LOF score (" ++ format_f 2 (lof_score score)
                        ++ ") - in a sparse region compared to neighbors")
    else if gtb (lof_score score) 1.2 then
      append reasons ("Elevated LOF score (" ++ format_f 2 (lof_score score) ++ ")")
    else reasons in
  let reasons :=
    if (reverse_knn_count score =? 0)%Z then
      append reasons "Zero reverse neighbors - nothing considers this code similar"
    else if (reverse_knn_count score <? 3)%Z then
      append reasons ("Low reverse neighbors (" ++ str_of_int (reverse_knn_count score)
                        ++ ") - rarely referenced as similar")
    else reasons in
  let reasons :=
    match reasons with
    | [] => append reasons "Slightly elevated anomaly metrics"
    | _ :: _ => reasons
    end in
  String.concat " | " reasons.

Close Scope string_scope.

(** ** The signal computers *)

Open Scope float_scope.

(** [compute_knn_distances]: the mean distance to the neighbours returned for
    each id, [inf] for an item without neighbours. *)
Definition compute_knn_distances (self : AnomalyDetector)
  : dict (float * list nat) :=
  let results : dict (float * list nat) := [] in
  fold_left
    (fun results item_id =>
       let neighbors := get_neighbors (index self) item_id (k self) in
       let '(avg_dist, neighbor_ids) :=
         match neighbors with
         | _ :: _ => (Np.mean (map snd neighbors), map fst neighbors)
         | [] => (infinity, [])
         end in
       dict_set item_id (avg_dist, neighbor_ids) results)
    (range (count (index self))) results.

(** [compute_reverse_knn]: one increment per listing, then an explicit zero
    for every id that was never listed. *)
Definition compute_reverse_knn (self : AnomalyDetector) : dict Z :=
  let reverse_counts : dict Z := [] in
  let reverse_counts :=
    fold_left
      (fun reverse_counts item_id =>
         let neighbors := get_neighbors (index self) item_id (k self) in
         fold_left (fun rc nb => counter_incr rc (fst nb)) neighbors reverse_counts)
      (range (count (index self))) reverse_counts in
  fold_left
    (fun reverse_counts item_id =>
       if dict_mem item_id reverse_counts then reverse_counts
       else dict_set item_id 0%Z reverse_counts)
    (range (count (index self))) reverse_counts.

Section LocalDensity.

(** scikit-learn's estimator is outside the repository.  The parameter stands
    for [LocalOutlierFactor(n_neighbors, contamination, novelty=False,
    metric='cosine').fit(X).negative_outlier_factor_], which may raise. *)
Variable LocalOutlierFactor : Z -> float -> list (list float) -> result (list float).

(** [compute_lof]: the neutral score when there are fewer than [k + 1] rows,
    the negated estimator output otherwise. *)
Definition compute_lof (self : AnomalyDetector) (contamination : float)
  : result (dict float) :=
  let embeddings := get_all_embeddings (index self) in
  let len := Z.of_nat (length embeddings) in
  if (len <? k self + 1)%Z then
    Ok (dict_const (length embeddings) 1.0)
  else
    negative_outlier_factor <-
      LocalOutlierFactor (Z.min (k self) (len - 1)) contamination embeddings ;;
    let scores := map PrimFloat.opp negative_outlier_factor in
    Ok (dict_enumerate scores).

(** ** Normalisation and combination *)

(** The local function [normalize] of [compute_isolation_score]. *)
Definition normalize (values : list float) (inverse : bool) : result (dict float) :=
  arr_max <- Np.max values ;;
  arr_min <- Np.min values ;;
  if arr_max =? arr_min then
    Ok (dict_const (length values) 0.5)
  else
    let normalized := map (fun x => (x - arr_min) / (arr_max - arr_min)) values in
    let normalized :=
      if inverse then map (fun v => 1 - v) normalized else normalized in
    Ok (dict_enumerate normalized).

Definition default_weights : float * float * float := (0.4, 0.4, 0.2).

(** [compute_isolation_score].  The reverse-kNN counts are integers; numpy
    subtracts them as integers and converts to [float64] for the division,
    which for counts (far below 2^53) is the same as converting first. *)
Definition compute_isolation_score
  (knn_distances : dict (float * list nat)) (lof_scores : dict float)
  (reverse_knn : dict Z) (weights : float * float * float)
  : result (dict float) :=
  let knn_values := map fst (dict_values knn_distances) in
  let lof_values := dict_values lof_scores in
  let rknn_values := dict_values reverse_knn in
  knn_norm <- normalize knn_values false ;;
  lof_norm <- normalize lof_values false ;;
  rknn_norm <- normalize (map float_of_int rknn_values) true ;;
  let '(w_knn, w_lof, w_rknn) := weights in
  let isolation : dict float := [] in
  for_each
    (fun isolation item_id =>
       a <- dict_get knn_norm item_id ;;
       b <- dict_get lof_norm item_id ;;
       c <- dict_get rknn_norm item_id ;;
       let score := w_knn * a + w_lof * b + w_rknn * c in
       Ok (dict_set item_id score isolation))
    (range (length knn_distances)) isolation.

(** ** Ranking *)

(** [for rank, score in enumerate(scores, start): score.rank = rank] *)
Fixpoint assign_ranks (start : nat) (scores : list AnomalyScore) : list AnomalyScore :=
  match scores with
  | [] => []
  | score :: rest => set_rank start score :: assign_ranks (S start) rest
  end.

(** [analyze] *)
Definition analyze (self : AnomalyDetector) (lof_contamination : float)
  (weights : float * float * float) : result (list AnomalyScore) :=
  if Nat.eqb (count (index self)) 0 then Ok []
  else
    let knn_distances := compute_knn_distances self in
    lof_scores <- compute_lof self lof_contamination ;;
    let reverse_knn := compute_reverse_knn self in
    isolation_scores <-
      compute_isolation_score knn_distances lof_scores reverse_knn weights ;;
    scores <-
      for_each
        (fun scores item_id =>
           entry <- dict_get knn_distances item_id ;;
           let '(knn_dist, neighbors) := entry in
           lof <- dict_get lof_scores item_id ;;
           rknn <- dict_get reverse_knn item_id ;;
           iso <- dict_get isolation_scores item_id ;;
           Ok (append scores
                 (mkAnomalyScore item_id knn_dist lof rknn iso neighbors 0)))
        (range (count (index self))) [] ;;
    let scores := sort_desc isolation_score scores in
    Ok (assign_ranks 1 scores).

(** [get_top_anomalys]: the analysis with the default weights, cut by a
    slice. *)
Definition get_top_anomalys (self : AnomalyDetector) (n : Z)
  (lof_contamination : float) : result (list AnomalyScore) :=
  all_scores <- analyze self lof_contamination default_weights ;;
  Ok (slice_to all_scores n).

End LocalDensity.

Close Scope float_scope.

(** * Properties *)

(** ** Dictionaries *)

Section DictFacts.

Context {V : Type}.
Implicit Types (d : dict V) (key : nat) (v : V).

Lemma dict_find_In_keys d key v :
  dict_find key d = Some v -> In key (dict_keys d).
Proof.
  induction d as [|[k' v'] d IH]; simpl; [discriminate|].
  destruct (Nat.eqb_spec key k') as [->|Hne]; intros H; [now left|].
  right. now apply IH.
Qed.

Lemma dict_find_None d key :
  dict_find key d = None <-> ~ In key (dict_keys d).
Proof.
  induction d as [|[k' v'] d IH]; simpl.
  - split; [intros _ []|reflexivity].
  - destruct (Nat.eqb_spec key k') as [->|Hne].
    + split; [discriminate|]. intros H. exfalso. apply H. now left.
    + rewrite IH. split.
      * intros H [E|HIn]; [now apply Hne|now apply H].
      * intros H HIn. apply H. now right.
Qed.

Lemma dict_mem_true d key :
  dict_mem key d = true <-> In key (dict_keys d).
Proof.
  unfold dict_mem. destruct (dict_find key d) as [v|] eqn:E.
  - split; [intros _|reflexivity]. eapply dict_find_In_keys; eassumption.
  - split; [discriminate|]. intros HIn. now apply dict_find_None in E.
Qed.

Lemma dict_find_set_same d key v :
  dict_find key (dict_set key v d) = Some v.
Proof.
  induction d as [|[k' v'] d IH]; simpl.
  - now rewrite Nat.eqb_refl.
  - destruct (Nat.eqb_spec key k') as [->|Hne]; simpl.
    + now rewrite Nat.eqb_refl.
    + destruct (Nat.eqb_spec key k'); [contradiction|exact IH].
Qed.

Lemma dict_find_set_other d key key' v :
  key <> key' -> dict_find key (dict_set key' v d) = dict_find key d.
Proof.
  intros Hne. induction d as [|[k0 v0] d IH]; simpl.
  - destruct (Nat.eqb_spec key key'); [contradiction|reflexivity].
  - destruct (Nat.eqb_spec key' k0) as [->|Hne']; simpl.
    + destruct (Nat.eqb_spec key k0); [contradiction|reflexivity].
    + destruct (Nat.eqb_spec key k0); [reflexivity|exact IH].
Qed.

(** Writing a key that is absent appends it; writing a present key leaves
    the key sequence alone. *)
Lemma dict_keys_set d key v :
  dict_keys (dict_set key v d)
  = if dict_mem key d then dict_keys d else dict_keys d ++ [key].
Proof.
  unfold dict_mem. induction d as [|[k' v'] d IH]; simpl; [reflexivity|].
  destruct (Nat.eqb_spec key k') as [->|Hne]; simpl; [reflexivity|].
  rewrite IH. now destruct (dict_find key d).
Qed.

Lemma dict_set_fresh d key v :
  ~ In key (dict_keys d) -> dict_set key v d = d ++ [(key, v)].
Proof.
  induction d as [|[k' v'] d IH]; simpl; intros H; [reflexivity|].
  destruct (Nat.eqb_spec key k') as [->|Hne].
  - exfalso. apply H. now left.
  - f_equal. apply IH. intros HIn. apply H. now right.
Qed.

Lemma dict_keys_app d1 d2 : dict_keys (d1 ++ d2) = dict_keys d1 ++ dict_keys d2.
Proof. apply map_app. Qed.

(** A loop that stores one value per id of an ascending range, into a
    dictionary whose keys are all below the range, appends them in order. *)
Lemma fold_set_range (f : nat -> V) (len start : nat) d :
  (forall key, In key (dict_keys d) -> key < start) ->
  fold_left (fun acc i => dict_set i (f i) acc) (seq start len) d
  = d ++ map (fun i => (i, f i)) (seq start len).
Proof.
  revert start d. induction len as [|len IH]; intros start d Hlt; simpl.
  - now rewrite app_nil_r.
  - rewrite dict_set_fresh.
    + rewrite IH.
      * now rewrite <- app_assoc.
      * intros key. rewrite dict_keys_app. simpl. intros HIn.
        apply in_app_or in HIn. destruct HIn as [HIn|[<-|[]]]; [|lia].
        apply Hlt in HIn. lia.
    + intros HIn. apply Hlt in HIn. lia.
Qed.

(** Reading position [i] of a dictionary laid out as an array. *)
Lemma dict_find_tabulate (f : nat -> V) (len start i : nat) :
  start <= i < start + len ->
  dict_find i (map (fun j => (j, f j)) (seq start len)) = Some (f i).
Proof.
  revert start. induction len as [|len IH]; intros start Hi; simpl; [lia|].
  destruct (Nat.eqb_spec i start) as [->|Hne]; [reflexivity|].
  apply IH. lia.
Qed.

Lemma dict_const_tabulate (n : nat) v :
  dict_const n v = map (fun j => (j, v)) (seq 0 n).
Proof. reflexivity. Qed.

Lemma dict_enumerate_tabulate (xs : list V) (dflt : V) :
  dict_enumerate xs = map (fun j => (j, nth j xs dflt)) (seq 0 (length xs)).
Proof.
  unfold dict_enumerate, range.
  assert (G : forall start (ys : list V),
             combine (seq start (length ys)) ys
             = map (fun j => (j, nth (j - start) ys dflt)) (seq start (length ys))).
  { intros start ys. revert start.
    induction ys as [|y ys IH]; intros start; simpl; [reflexivity|].
    rewrite Nat.sub_diag. f_equal. rewrite IH.
    apply map_ext_in. intros j Hj. apply in_seq in Hj.
    replace (j - start) with (S (j - S start)) by lia. reflexivity. }
  rewrite G. apply map_ext. intros j. now rewrite Nat.sub_0_r.
Qed.

Lemma length_tabulate (f : nat -> V) (len start : nat) :
  length (map (fun j => (j, f j)) (seq start len)) = len.
Proof. now rewrite length_map, length_seq. Qed.

Lemma dict_keys_tabulate (f : nat -> V) (len start : nat) :
  dict_keys (map (fun j => (j, f j)) (seq start len)) = seq start len.
Proof.
  unfold dict_keys. rewrite map_map. simpl. apply map_id.
Qed.

Lemma dict_values_tabulate (f : nat -> V) (len start : nat) :
  dict_values (map (fun j => (j, f j)) (seq start len)) = map f (seq start len).
Proof. unfold dict_values. now rewrite map_map. Qed.

End DictFacts.

(** ** Loops *)

Lemma fold_left_ext_in {A B : Type} (f g : A -> B -> A) (xs : list B) (a : A) :
  (forall acc x, In x xs -> f acc x = g acc x) ->
  fold_left f xs a = fold_left g xs a.
Proof.
  revert a. induction xs as [|x xs IH]; intros a H; simpl; [reflexivity|].
  rewrite H by now left. apply IH. intros acc y Hy. apply H. now right.
Qed.

(** A loop whose body raises on none of the elements is a plain fold. *)
Lemma for_each_pure {A S : Type} (body : S -> A -> result S) (step : S -> A -> S)
  (xs : list A) (acc : S) :
  (forall s x, In x xs -> body s x = Ok (step s x)) ->
  for_each body xs acc = Ok (fold_left step xs acc).
Proof.
  revert acc. induction xs as [|x xs IH]; intros acc H; simpl; [reflexivity|].
  rewrite H by now left. simpl. apply IH. intros s y Hy. apply H. now right.
Qed.

Lemma fold_append {A B : Type} (h : A -> B) (xs : list A) (acc : list B) :
  fold_left (fun acc x => append acc (h x)) xs acc = acc ++ map h xs.
Proof.
  revert acc. induction xs as [|x xs IH]; intros acc; simpl.
  - now rewrite app_nil_r.
  - rewrite IH. unfold append. now rewrite <- app_assoc.
Qed.

Lemma fold_left_concat {A B : Type} (f : A -> B -> A) (ls : list (list B)) (a : A) :
  fold_left (fun acc l => fold_left f l acc) ls a = fold_left f (concat ls) a.
Proof.
  revert a. induction ls as [|l ls IH]; intros a; simpl; [reflexivity|].
  now rewrite fold_left_app, IH.
Qed.

(** ** The reverse-kNN counter *)

(** The ids listed by the neighbour queries of all items, in query order. *)
Definition listings (self : AnomalyDetector) : list nat :=
  concat (map (fun item_id => map fst (get_neighbors (index self) item_id (k self)))
            (range (count (index self)))).

(** The two loops of [compute_reverse_knn] as folds over plain id lists. *)
Definition count_all (c : dict Z) (ids : list nat) : dict Z :=
  fold_left counter_incr ids c.

Definition fill_missing (c : dict Z) (ids : list nat) : dict Z :=
  fold_left (fun rc i => if dict_mem i rc then rc else dict_set i 0%Z rc) ids c.

Lemma compute_reverse_knn_unfold self :
  compute_reverse_knn self
  = fill_missing (count_all [] (listings self)) (range (count (index self))).
Proof.
  unfold compute_reverse_knn, fill_missing, count_all, listings.
  f_equal.
  rewrite <- fold_left_concat.
  generalize (range (count (index self))) as ids.
  generalize (@nil (nat * Z)) as c.
  intros c ids. revert c. induction ids as [|i ids IH]; intros c; simpl; [reflexivity|].
  rewrite <- IH. f_equal.
  generalize (get_neighbors (index self) i (k self)) as nbs.
  intros nbs. revert c. induction nbs as [|nb nbs IHn]; intros c; simpl; [reflexivity|].
  apply IHn.
Qed.

Lemma counter_get_incr_same c key :
  counter_get (counter_incr c key) key = (counter_get c key + 1)%Z.
Proof.
  unfold counter_incr. unfold counter_get at 1.
  now rewrite dict_find_set_same.
Qed.

Lemma counter_get_incr_other c key key' :
  key <> key' -> counter_get (counter_incr c key') key = counter_get c key.
Proof.
  intros Hne. unfold counter_incr, counter_get.
  now rewrite dict_find_set_other.
Qed.

Lemma In_keys_set {V : Type} (d : dict V) key key' (v : V) :
  In key (dict_keys (dict_set key' v d)) <-> In key (dict_keys d) \/ key = key'.
Proof.
  rewrite dict_keys_set. destruct (dict_mem key' d) eqn:E.
  - apply dict_mem_true in E. split; [now left|].
    intros [H | ->]; assumption.
  - rewrite in_app_iff. simpl. split.
    + intros [H|[<-|[]]]; [now left|now right].
    + intros [H| ->]; [now left|right; now left].
Qed.

Lemma NoDup_keys_set {V : Type} (d : dict V) key (v : V) :
  NoDup (dict_keys d) -> NoDup (dict_keys (dict_set key v d)).
Proof.
  intros Hnd. rewrite dict_keys_set. destruct (dict_mem key d) eqn:E; [assumption|].
  apply NoDup_app; [assumption|constructor; [intros []|constructor]|].
  intros x Hx [<-|[]]. apply dict_mem_true in Hx. congruence.
Qed.

Lemma count_all_get c ids key :
  counter_get (count_all c ids) key
  = (counter_get c key + Z.of_nat (count_occ Nat.eq_dec ids key))%Z.
Proof.
  unfold count_all. revert c. induction ids as [|i ids IH]; intros c; simpl.
  - lia.
  - rewrite IH. destruct (Nat.eq_dec i key) as [->|Hne].
    + rewrite counter_get_incr_same. lia.
    + rewrite counter_get_incr_other by congruence. lia.
Qed.

Lemma count_all_keys c ids key :
  In key (dict_keys (count_all c ids)) <-> In key (dict_keys c) \/ In key ids.
Proof.
  unfold count_all. revert c. induction ids as [|i ids IH]; intros c; simpl.
  - tauto.
  - rewrite IH. unfold counter_incr. rewrite In_keys_set. intuition congruence.
Qed.

Lemma count_all_NoDup c ids :
  NoDup (dict_keys c) -> NoDup (dict_keys (count_all c ids)).
Proof.
  unfold count_all. revert c. induction ids as [|i ids IH]; intros c H; simpl.
  - assumption.
  - apply IH. now apply NoDup_keys_set.
Qed.

Lemma fill_missing_get c ids key :
  counter_get (fill_missing c ids) key = counter_get c key.
Proof.
  unfold fill_missing. revert c. induction ids as [|i ids IH]; intros c; simpl.
  - reflexivity.
  - rewrite IH. destruct (dict_mem i c) eqn:E; [reflexivity|].
    destruct (Nat.eq_dec key i) as [->|Hne].
    + unfold counter_get. rewrite dict_find_set_same.
      unfold dict_mem in E. now destruct (dict_find i c).
    + unfold counter_get. now rewrite dict_find_set_other.
Qed.

Lemma fill_missing_keys c ids key :
  In key (dict_keys (fill_missing c ids)) <-> In key (dict_keys c) \/ In key ids.
Proof.
  unfold fill_missing. revert c. induction ids as [|i ids IH]; intros c; simpl.
  - tauto.
  - rewrite IH. destruct (dict_mem i c) eqn:E.
    + apply dict_mem_true in E. intuition congruence.
    + rewrite In_keys_set. intuition congruence.
Qed.

Lemma fill_missing_NoDup c ids :
  NoDup (dict_keys c) -> NoDup (dict_keys (fill_missing c ids)).
Proof.
  unfold fill_missing. revert c. induction ids as [|i ids IH]; intros c H; simpl.
  - assumption.
  - apply IH. destruct (dict_mem i c); [assumption|now apply NoDup_keys_set].
Qed.

(** Every id of the index has an entry, whose value is the number of times
    the id was listed; this holds for any index. *)
Lemma reverse_knn_entry self item :
  item < count (index self) ->
  dict_get (compute_reverse_knn self) item
  = Ok (Z.of_nat (count_occ Nat.eq_dec (listings self) item)).
Proof.
  intros Hlt. rewrite compute_reverse_knn_unfold.
  set (rk := fill_missing _ _).
  assert (Hin : In item (dict_keys rk)).
  { apply fill_missing_keys. right. apply in_seq. lia. }
  assert (Hget : counter_get rk item
                 = Z.of_nat (count_occ Nat.eq_dec (listings self) item)).
  { unfold rk. rewrite fill_missing_get, count_all_get. reflexivity. }
  unfold dict_get. unfold counter_get in Hget.
  destruct (dict_find item rk) eqn:E.
  - now rewrite Hget.
  - apply dict_find_None in E. contradiction.
Qed.

Lemma reverse_knn_NoDup self : NoDup (dict_keys (compute_reverse_knn self)).
Proof.
  rewrite compute_reverse_knn_unfold.
  apply fill_missing_NoDup, count_all_NoDup. constructor.
Qed.

Lemma reverse_knn_keys self key :
  In key (dict_keys (compute_reverse_knn self))
  <-> In key (listings self) \/ key < count (index self).
Proof.
  rewrite compute_reverse_knn_unfold, fill_missing_keys, count_all_keys.
  unfold range. rewrite in_seq. simpl. intuition lia.
Qed.

Lemma reverse_knn_length self :
  count (index self) <= length (compute_reverse_knn self).
Proof.
  rewrite <- (length_seq (count (index self)) 0) at 1.
  rewrite <- (length_map fst (compute_reverse_knn self)).
  apply NoDup_incl_length; [apply seq_NoDup|].
  intros key Hkey. apply reverse_knn_keys. right. apply in_seq in Hkey. lia.
Qed.

(** ** The stages of the pipeline in closed form *)

(** What [compute_knn_distances] stores for one id. *)
Definition knn_entry (self : AnomalyDetector) (item_id : nat) : float * list nat :=
  let neighbors := get_neighbors (index self) item_id (k self) in
  match neighbors with
  | _ :: _ => (Np.mean (map snd neighbors), map fst neighbors)
  | [] => (infinity, [])
  end.

Lemma compute_knn_distances_tabulate self :
  compute_knn_distances self
  = map (fun i => (i, knn_entry self i)) (seq 0 (count (index self))).
Proof.
  unfold compute_knn_distances, range.
  rewrite fold_left_ext_in
    with (g := fun acc i => dict_set i (knn_entry self i) acc).
  - rewrite fold_set_range; [reflexivity|]. intros key [].
  - intros acc i _. unfold knn_entry.
    destruct (get_neighbors (index self) i (k self)); reflexivity.
Qed.

Lemma dict_get_tabulate {V : Type} (f : nat -> V) (len i : nat) :
  i < len -> dict_get (map (fun j => (j, f j)) (seq 0 len)) i = Ok (f i).
Proof.
  intros Hi. unfold dict_get. rewrite dict_find_tabulate by lia. reflexivity.
Qed.

(** On a non-empty array [normalize] raises nothing and returns one entry
    per position. *)
Lemma normalize_tabulate values inverse :
  values <> [] ->
  exists f, normalize values inverse
            = Ok (map (fun j => (j, f j)) (seq 0 (length values))).
Proof.
  intros Hne. unfold normalize.
  destruct values as [|x rest]; [contradiction|].
  cbn [Np.max Np.min bind].
  destruct (PrimFloat.eqb _ _).
  - exists (fun _ => 0.5%float). reflexivity.
  - destruct inverse; eexists; rewrite (dict_enumerate_tabulate _ 0%float);
      rewrite ?length_map; reflexivity.
Qed.

(** The combination succeeds as soon as the three signal maps are non-empty
    and the two other maps are at least as long as the kNN map. *)
Lemma compute_isolation_score_tabulate
  (knn_distances : dict (float * list nat)) (lof_scores : dict float)
  (reverse_knn : dict Z) (weights : float * float * float) :
  0 < length knn_distances ->
  length knn_distances <= length lof_scores ->
  length knn_distances <= length reverse_knn ->
  exists iso,
    compute_isolation_score knn_distances lof_scores reverse_knn weights
    = Ok (map (fun j => (j, iso j)) (seq 0 (length knn_distances))).
Proof.
  intros Hpos Hlof Hrk. unfold compute_isolation_score.
  destruct (normalize_tabulate (map fst (dict_values knn_distances)) false)
    as [fa Ea].
  { intros E. apply (f_equal (@length _)) in E.
    unfold dict_values in E. rewrite !length_map in E. simpl in E. lia. }
  destruct (normalize_tabulate (dict_values lof_scores) false) as [fb Eb].
  { intros E. apply (f_equal (@length _)) in E.
    unfold dict_values in E. rewrite !length_map in E. simpl in E. lia. }
  destruct (normalize_tabulate (map float_of_int (dict_values reverse_knn)) true)
    as [fc Ec].
  { intros E. apply (f_equal (@length _)) in E.
    unfold dict_values in E. rewrite !length_map in E. simpl in E. lia. }
  rewrite Ea, Eb, Ec. cbn [bind].
  unfold dict_values in *. rewrite !length_map in *.
  destruct weights as [[w_knn w_lof] w_rknn].
  exists (fun i => (w_knn * fa i + w_lof * fb i + w_rknn * fc i)%float).
  rewrite for_each_pure
    with (step := fun acc i =>
            dict_set i (w_knn * fa i + w_lof * fb i + w_rknn * fc i)%float acc).
  - unfold range. rewrite fold_set_range; [reflexivity|]. intros key [].
  - intros s i Hi. apply in_seq in Hi.
    rewrite !dict_get_tabulate by lia. reflexivity.
Qed.

(** *** Sorting and ranking *)

Lemma insert_desc_perm {A : Type} (key : A -> float) (x : A) (l : list A) :
  Permutation (x :: l) (insert_desc key x l).
Proof.
  induction l as [|y l IH]; simpl; [apply Permutation_refl|].
  destruct (PrimFloat.ltb (key x) (key y)).
  - eapply perm_trans; [apply perm_swap|]. now apply perm_skip.
  - apply Permutation_refl.
Qed.

(** Sorting rearranges the records and loses none, whatever the keys. *)
Lemma sort_desc_perm {A : Type} (key : A -> float) (l : list A) :
  Permutation l (sort_desc key l).
Proof.
  induction l as [|x l IH]; simpl; [constructor|].
  eapply perm_trans; [apply perm_skip, IH|]. apply insert_desc_perm.
Qed.

Lemma assign_ranks_length start scores :
  length (assign_ranks start scores) = length scores.
Proof.
  revert start. induction scores as [|s scores IH]; intros start; simpl;
    [reflexivity|now rewrite IH].
Qed.

Lemma assign_ranks_rank start scores :
  map rank (assign_ranks start scores) = seq start (length scores).
Proof.
  revert start. induction scores as [|s scores IH]; intros start; simpl;
    [reflexivity|now rewrite IH].
Qed.

(** The ranking pass touches no field other than [rank]. *)
Lemma assign_ranks_frame start scores :
  map item_id (assign_ranks start scores) = map item_id scores
  /\ map knn_distance (assign_ranks start scores) = map knn_distance scores
  /\ map lof_score (assign_ranks start scores) = map lof_score scores
  /\ map reverse_knn_count (assign_ranks start scores) = map reverse_knn_count scores
  /\ map isolation_score (assign_ranks start scores) = map isolation_score scores
  /\ map neighbors (assign_ranks start scores) = map neighbors scores.
Proof.
  revert start. induction scores as [|s scores IH]; intros start; simpl.
  - repeat split.
  - destruct (IH (S start)) as (H1 & H2 & H3 & H4 & H5 & H6).
    rewrite H1, H2, H3, H4, H5, H6. repeat split.
Qed.

(** ** The index contract *)

Fixpoint nodupb (ids : list nat) : bool :=
  match ids with
  | [] => true
  | x :: rest => negb (existsb (Nat.eqb x) rest) && nodupb rest
  end.

Fixpoint ascending (ds : list float) : bool :=
  match ds with
  | [] => true
  | d :: rest =>
      match rest with
      | [] => true
      | d' :: _ => (d <=? d')%float && ascending rest
      end
  end.

(** One neighbour list as the contract wants it: at most [k] entries, ids of
    the index, no id twice, distances finite and non-negative, nearest
    first. *)
Definition neighbors_ok (n : nat) (k : Z) (nbs : list (nat * float)) : bool :=
  (Z.of_nat (length nbs) <=? Z.max k 0)%Z
  && forallb (fun nb => Nat.ltb (fst nb) n) nbs
  && nodupb (map fst nbs)
  && forallb (fun nb => (0 <=? snd nb)%float && (snd nb <? infinity)%float) nbs
  && ascending (map snd nbs).

(** The embedding matrix has one row per item and is rectangular. *)
Definition embeddings_ok (n : nat) (rows : list (list float)) : bool :=
  Nat.eqb (length rows) n
  && match rows with
     | [] => true
     | row :: rest => forallb (fun r => Nat.eqb (length r) (length row)) rest
     end.

Definition conformingb (idx : HNSWIndex) (k : Z) : bool :=
  embeddings_ok (count idx) (get_all_embeddings idx)
  && forallb (fun i => neighbors_ok (count idx) k (get_neighbors idx i k))
       (range (count idx)).

(** A conforming index for neighbourhood size [k]. *)
Definition conforming (idx : HNSWIndex) (k : Z) : Prop := conformingb idx k = true.

(** What is asked of the external estimator: when the detector calls it, it
    returns one factor per row. *)
Definition estimator_fits
  (LocalOutlierFactor : Z -> float -> list (list float) -> result (list float))
  (self : AnomalyDetector) (contamination : float) : Prop :=
  let rows := get_all_embeddings (index self) in
  (Z.of_nat (length rows) <? k self + 1)%Z = false ->
  exists out,
    LocalOutlierFactor (Z.min (k self) (Z.of_nat (length rows) - 1)) contamination rows
    = Ok out
    /\ length out = length rows.

Lemma nodupb_NoDup ids : nodupb ids = true -> NoDup ids.
Proof.
  induction ids as [|x rest IH]; simpl; intros H; [constructor|].
  apply andb_prop in H. destruct H as [Hx Hrest]. constructor; [|now apply IH].
  intros HIn. apply negb_true_iff in Hx.
  assert (E : existsb (Nat.eqb x) rest = true).
  { apply existsb_exists. exists x. split; [assumption|apply Nat.eqb_refl]. }
  congruence.
Qed.

Lemma conforming_rows idx k :
  conforming idx k -> length (get_all_embeddings idx) = count idx.
Proof.
  unfold conforming, conformingb, embeddings_ok. intros H.
  apply andb_prop in H. destruct H as [H _].
  apply andb_prop in H. destruct H as [H _]. now apply Nat.eqb_eq.
Qed.

Lemma conforming_neighbors idx k i :
  conforming idx k -> i < count idx ->
  neighbors_ok (count idx) k (get_neighbors idx i k) = true.
Proof.
  unfold conforming, conformingb. intros H Hi.
  apply andb_prop in H. destruct H as [_ H].
  rewrite forallb_forall in H. apply H. apply in_seq. lia.
Qed.

Lemma conforming_ids idx k i id :
  conforming idx k -> i < count idx ->
  In id (map fst (get_neighbors idx i k)) -> id < count idx.
Proof.
  intros H Hi HIn. pose proof (conforming_neighbors idx k i H Hi) as Hok.
  unfold neighbors_ok in Hok.
  repeat (apply andb_prop in Hok; destruct Hok as [Hok ?]).
  apply in_map_iff in HIn. destruct HIn as [nb [<- HIn]].
  match goal with
  | Hf : forallb (fun nb => Nat.ltb (fst nb) _) _ = true |- _ =>
      rewrite forallb_forall in Hf; apply Hf in HIn
  end.
  now apply Nat.ltb_lt.
Qed.

Lemma conforming_distinct idx k i :
  conforming idx k -> i < count idx ->
  NoDup (map fst (get_neighbors idx i k)).
Proof.
  intros H Hi. pose proof (conforming_neighbors idx k i H Hi) as Hok.
  unfold neighbors_ok in Hok.
  repeat (apply andb_prop in Hok; destruct Hok as [Hok ?]).
  now apply nodupb_NoDup.
Qed.

(** ** The analysis in closed form *)

Section Analysis.

Variable LocalOutlierFactor : Z -> float -> list (list float) -> result (list float).
Variable self : AnomalyDetector.
Variable contamination : float.

Let n := count (index self).

Hypothesis rows_match : length (get_all_embeddings (index self)) = n.
Hypothesis fits : estimator_fits LocalOutlierFactor self contamination.

Lemma compute_lof_tabulate :
  exists lofv,
    compute_lof LocalOutlierFactor self contamination
    = Ok (map (fun j => (j, lofv j)) (seq 0 n)).
Proof.
  unfold compute_lof. destruct (Z.ltb _ _) eqn:E.
  - exists (fun _ => 1.0%float). now rewrite rows_match.
  - destruct (fits E) as [out [Hout Hlen]]. rewrite Hout. cbn [bind].
    eexists. rewrite (dict_enumerate_tabulate _ 0%float).
    rewrite length_map, Hlen, rows_match. reflexivity.
Qed.

(** The record built for item [i] before sorting. *)
Definition raw_score (lofv iso : nat -> float) (i : nat) : AnomalyScore :=
  mkAnomalyScore i (fst (knn_entry self i)) (lofv i)
    (Z.of_nat (count_occ Nat.eq_dec (listings self) i)) (iso i)
    (snd (knn_entry self i)) 0.

Lemma analyze_unfold weights :
  n <> 0 ->
  exists lofv iso,
    compute_lof LocalOutlierFactor self contamination
    = Ok (map (fun j => (j, lofv j)) (seq 0 n))
    /\ compute_isolation_score (compute_knn_distances self)
         (map (fun j => (j, lofv j)) (seq 0 n)) (compute_reverse_knn self) weights
       = Ok (map (fun j => (j, iso j)) (seq 0 n))
    /\ analyze LocalOutlierFactor self contamination weights
       = Ok (assign_ranks 1
               (sort_desc isolation_score (map (raw_score lofv iso) (seq 0 n)))).
Proof.
  intros Hn. destruct compute_lof_tabulate as [lofv Hlof].
  assert (Hlen : length (compute_knn_distances self) = n).
  { rewrite compute_knn_distances_tabulate. apply length_tabulate. }
  destruct (compute_isolation_score_tabulate (compute_knn_distances self)
              (map (fun j => (j, lofv j)) (seq 0 n)) (compute_reverse_knn self)
              weights) as [iso Hiso].
  - lia.
  - rewrite Hlen, length_tabulate. lia.
  - rewrite Hlen. apply reverse_knn_length.
  - rewrite Hlen in Hiso.
    exists lofv, iso. split; [exact Hlof|]. split; [exact Hiso|].
    unfold analyze. fold n.
    destruct (Nat.eqb_spec n 0) as [E|_]; [contradiction|].
    rewrite Hlof. cbn [bind]. rewrite Hiso. cbn [bind].
    rewrite for_each_pure
      with (step := fun acc i => append acc (raw_score lofv iso i)).
    + cbn [bind]. rewrite fold_append. reflexivity.
    + intros s i Hi. apply in_seq in Hi.
      rewrite compute_knn_distances_tabulate.
      rewrite !dict_get_tabulate by (fold n; lia). cbn [bind].
      rewrite reverse_knn_entry by (fold n; lia). cbn [bind].
      unfold raw_score. destruct (knn_entry self i). reflexivity.
Qed.

End Analysis.

(** ** Sample indexes *)

Open Scope float_scope.

(** Three items, each listing the other two, nearest first. *)
Definition sample_index : HNSWIndex :=
  mkIndex 3
    (fun item_id _ =>
       match item_id with
       | 0%nat => [(1%nat, 0.1); (2%nat, 0.9)]
       | 1%nat => [(0%nat, 0.1); (2%nat, 0.8)]
       | _ => [(1%nat, 0.8); (0%nat, 0.9)]
       end)
    [[1; 0]; [0.9; 0.1]; [0; 1]].

(** Three items of which the middle one has no neighbour at all. *)
Definition orphan_index : HNSWIndex :=
  mkIndex 3
    (fun item_id _ =>
       match item_id with
       | 0%nat => [(2%nat, 0.1)]
       | 2%nat => [(0%nat, 0.1)]
       | _ => []
       end)
    [[1; 0]; [0; 1]; [1; 0]].

(** An estimator that calls every row an inlier. *)
Definition inlier_estimator (n_neighbors : Z) (contamination : float)
  (rows : list (list float)) : result (list float) :=
  Ok (map (fun _ => -1.0) rows).

Close Scope float_scope.

(** ** analyze: size and ranks *)

(** The shape of the result, from the two facts the pipeline needs: one
    embedding row per item, and an estimator that answers with one factor
    per row. *)
Lemma analyze_ranked
  (LocalOutlierFactor : Z -> float -> list (list float) -> result (list float))
  (self : AnomalyDetector) (lof_contamination : float)
  (weights : float * float * float) :
  length (get_all_embeddings (index self)) = count (index self) ->
  estimator_fits LocalOutlierFactor self lof_contamination ->
  exists scores,
    analyze LocalOutlierFactor self lof_contamination weights = Ok scores
    /\ length scores = count (index self)
    /\ map rank scores = seq 1 (count (index self))
    /\ Permutation (map item_id scores) (seq 0 (count (index self))).
Proof.
  intros Hrows Hfits.
  destruct (Nat.eq_dec (count (index self)) 0) as [E|Hn].
  - exists []. unfold analyze. rewrite E. simpl. repeat split; constructor.
  - destruct (analyze_unfold LocalOutlierFactor self lof_contamination Hrows Hfits
                weights Hn) as (lofv & iso & _ & _ & Han).
    eexists. split; [exact Han|].
    set (raw := map (raw_score self lofv iso) (seq 0 (count (index self)))).
    assert (Hlen : length (sort_desc isolation_score raw) = count (index self)).
    { rewrite <- (Permutation_length (sort_desc_perm isolation_score raw)).
      unfold raw. now rewrite length_map, length_seq. }
    split; [now rewrite assign_ranks_length|].
    split; [now rewrite assign_ranks_rank, Hlen|].
    destruct (assign_ranks_frame 1 (sort_desc isolation_score raw)) as [Hid _].
    rewrite Hid. apply Permutation_sym.
    eapply perm_trans; [|apply Permutation_map, sort_desc_perm].
    unfold raw. rewrite map_map. simpl. rewrite map_id. apply Permutation_refl.
Qed.

(** C1. For a conforming index with [count() = n], [analyze] raises nothing
    and returns exactly [n] records; their ranks are 1, 2, ..., n in list
    order, hence a permutation of 1..n, and their item ids are a permutation
    of 0..n-1.  For [n = 0] the result is the empty list. *)
Theorem analyze_returns_n_ranked_scores
  (LocalOutlierFactor : Z -> float -> list (list float) -> result (list float))
  (self : AnomalyDetector) (lof_contamination : float)
  (weights : float * float * float) :
  conforming (index self) (k self) ->
  estimator_fits LocalOutlierFactor self lof_contamination ->
  exists scores,
    analyze LocalOutlierFactor self lof_contamination weights = Ok scores
    /\ length scores = count (index self)
    /\ map rank scores = seq 1 (count (index self))
    /\ Permutation (map rank scores) (seq 1 (count (index self)))
    /\ Permutation (map item_id scores) (seq 0 (count (index self)))
    /\ (count (index self) = 0 -> scores = []).
Proof.
  intros Hconf Hfits. apply conforming_rows in Hconf.
  destruct (analyze_ranked LocalOutlierFactor self lof_contamination weights
              Hconf Hfits) as (scores & Han & Hlen & Hrank & Hids).
  exists scores. repeat split; try assumption.
  - rewrite Hrank. apply Permutation_refl.
  - intros E. rewrite E in Hlen. now apply length_zero_iff_nil.
Qed.

Lemma analyze_returns_n_ranked_scores_witness :
  exists scores,
    analyze inlier_estimator (mkDetector sample_index 2) 0.1%float default_weights
    = Ok scores
    /\ length scores = 3
    /\ map rank scores = [1; 2; 3]
    /\ Permutation (map rank scores) [1; 2; 3]
    /\ Permutation (map item_id scores) [0; 1; 2]
    /\ (3 = 0 -> scores = []).
Proof.
  apply (analyze_returns_n_ranked_scores inlier_estimator
           (mkDetector sample_index 2) 0.1%float default_weights).
  - vm_compute. reflexivity.
  - intros _. eexists. split; reflexivity.
Defined.

(** On an empty index [analyze] returns the empty list before it touches the
    neighbours, the embeddings or the estimator. *)
Lemma analyze_empty_index
  (LocalOutlierFactor : Z -> float -> list (list float) -> result (list float))
  (self : AnomalyDetector) (lof_contamination : float)
  (weights : float * float * float) :
  count (index self) = 0 ->
  analyze LocalOutlierFactor self lof_contamination weights = Ok [].
Proof. intros E. unfold analyze. now rewrite E. Qed.

(** ** compute_lof on a small index *)

(** C6. When the index has fewer than [k + 1] items (its embedding matrix
    having one row per item), [compute_lof] gives every id of [0, count) the
    score 1.0 and nothing else; the estimator is not consulted. *)
Theorem compute_lof_small_index_neutral
  (LocalOutlierFactor : Z -> float -> list (list float) -> result (list float))
  (self : AnomalyDetector) (contamination : float) :
  length (get_all_embeddings (index self)) = count (index self) ->
  (Z.of_nat (count (index self)) < k self + 1)%Z ->
  exists lof_scores,
    compute_lof LocalOutlierFactor self contamination = Ok lof_scores
    /\ dict_keys lof_scores = seq 0 (count (index self))
    /\ forall item, item < count (index self) ->
         dict_get lof_scores item = Ok 1.0%float.
Proof.
  intros Hrows Hsmall. unfold compute_lof. rewrite Hrows.
  apply Z.ltb_lt in Hsmall. rewrite Hsmall.
  eexists. split; [reflexivity|]. rewrite dict_const_tabulate. split.
  - apply dict_keys_tabulate.
  - intros item Hitem. now apply dict_get_tabulate.
Qed.

Lemma compute_lof_small_index_neutral_witness :
  exists lof_scores,
    compute_lof inlier_estimator (mkDetector sample_index 10) 0.1%float
    = Ok lof_scores
    /\ dict_keys lof_scores = [0; 1; 2]
    /\ forall item, item < 3 -> dict_get lof_scores item = Ok 1.0%float.
Proof.
  apply (compute_lof_small_index_neutral inlier_estimator
           (mkDetector sample_index 10) 0.1%float).
  - reflexivity.
  - simpl. lia.
Defined.

(** ** compute_reverse_knn *)

Lemma count_occ_concat_map {A : Type} (g : A -> list nat) (xs : list A) (id : nat) :
  (forall x, In x xs -> NoDup (g x)) ->
  count_occ Nat.eq_dec (concat (map g xs)) id
  = length (filter (fun x => existsb (Nat.eqb id) (g x)) xs).
Proof.
  induction xs as [|x xs IH]; intros Hnd; simpl; [reflexivity|].
  rewrite count_occ_app, IH by (intros y Hy; apply Hnd; now right).
  assert (Hx : NoDup (g x)) by (apply Hnd; now left).
  destruct (existsb (Nat.eqb id) (g x)) eqn:E; simpl.
  - apply existsb_exists in E. destruct E as [y [Hy Ey]].
    apply Nat.eqb_eq in Ey. subst y.
    pose proof (proj1 (NoDup_count_occ Nat.eq_dec (g x)) Hx id) as Hle.
    pose proof (proj1 (count_occ_In Nat.eq_dec (g x) id) Hy) as Hpos. lia.
  - assert (Hnot : ~ In id (g x)).
    { intros HIn. assert (existsb (Nat.eqb id) (g x) = true); [|congruence].
      apply existsb_exists. exists id. split; [assumption|apply Nat.eqb_refl]. }
    apply (count_occ_not_In Nat.eq_dec) in Hnot. lia.
Qed.

Lemma filter_none {A : Type} (f : A -> bool) (xs : list A) :
  (forall x, In x xs -> f x = false) -> filter f xs = [].
Proof.
  induction xs as [|x xs IH]; intros H; simpl; [reflexivity|].
  rewrite H by now left. apply IH. intros y Hy. apply H. now right.
Qed.

Lemma listings_in_range self id :
  conforming (index self) (k self) -> In id (listings self) ->
  id < count (index self).
Proof.
  intros Hconf HIn. unfold listings in HIn. apply in_concat in HIn.
  destruct HIn as [l [Hl HIn]]. apply in_map_iff in Hl.
  destruct Hl as [i [<- Hi]]. apply in_seq in Hi.
  eapply conforming_ids; [eassumption| |eassumption]. lia.
Qed.

(** The number of items whose neighbour query lists [id]. *)
Definition listed_by (self : AnomalyDetector) (id : nat) : nat :=
  length
    (filter
       (fun item_id =>
          existsb (Nat.eqb id) (map fst (get_neighbors (index self) item_id (k self))))
       (range (count (index self)))).

(** C7. For a conforming index the keys of the reverse-kNN mapping are
    exactly the ids 0..count-1, each once; the value stored for an id is the
    number of items whose neighbour query listed it; and an id that no query
    listed is present with the value 0. *)
Theorem compute_reverse_knn_covers_every_id (self : AnomalyDetector) :
  conforming (index self) (k self) ->
  Permutation (dict_keys (compute_reverse_knn self)) (seq 0 (count (index self)))
  /\ (forall id, id < count (index self) ->
        dict_get (compute_reverse_knn self) id = Ok (Z.of_nat (listed_by self id)))
  /\ (forall id, id < count (index self) ->
        (forall item_id, item_id < count (index self) ->
           ~ In id (map fst (get_neighbors (index self) item_id (k self)))) ->
        dict_mem id (compute_reverse_knn self) = true
        /\ dict_get (compute_reverse_knn self) id = Ok 0%Z).
Proof.
  intros Hconf.
  assert (Hval : forall id, id < count (index self) ->
            dict_get (compute_reverse_knn self) id
            = Ok (Z.of_nat (listed_by self id))).
  { intros id Hid. rewrite reverse_knn_entry by assumption.
    unfold listings, listed_by. rewrite count_occ_concat_map; [reflexivity|].
    intros i Hi. apply in_seq in Hi. apply conforming_distinct; [assumption|lia]. }
  split; [|split].
  - apply NoDup_Permutation; [apply reverse_knn_NoDup|apply seq_NoDup|].
    intros id. rewrite reverse_knn_keys, in_seq. split.
    + intros [HIn|Hlt]; [apply (listings_in_range self) in HIn; [lia|assumption]|lia].
    + intros H. right. lia.
  - exact Hval.
  - intros id Hid Hnone. split.
    + apply dict_mem_true, reverse_knn_keys. now right.
    + rewrite Hval by assumption. unfold listed_by.
      rewrite filter_none; [reflexivity|].
      intros i Hi. apply in_seq in Hi.
      destruct (existsb _ _) eqn:E; [|reflexivity].
      apply existsb_exists in E. destruct E as [y [Hy Ey]].
      apply Nat.eqb_eq in Ey. subst y. exfalso. apply (Hnone i); [lia|assumption].
Qed.

Lemma compute_reverse_knn_covers_every_id_witness :
  Permutation (dict_keys (compute_reverse_knn (mkDetector orphan_index 10))) [0; 1; 2]
  /\ (forall id, id < 3 ->
        dict_get (compute_reverse_knn (mkDetector orphan_index 10)) id
        = Ok (Z.of_nat (listed_by (mkDetector orphan_index 10) id)))
  /\ (forall id, id < 3 ->
        (forall item_id, item_id < 3 ->
           ~ In id (map fst (get_neighbors orphan_index item_id 10%Z))) ->
        dict_mem id (compute_reverse_knn (mkDetector orphan_index 10)) = true
        /\ dict_get (compute_reverse_knn (mkDetector orphan_index 10)) id = Ok 0%Z).
Proof.
  apply (compute_reverse_knn_covers_every_id (mkDetector orphan_index 10)).
  vm_compute. reflexivity.
Defined.

(** ** get_top_anomalys *)

Lemma slice_to_nonneg {A : Type} (xs : list A) (n : Z) :
  (0 <= n)%Z -> slice_to xs n = firstn (Z.to_nat n) xs.
Proof.
  intros Hn. unfold slice_to.
  destruct (Z.ltb_spec n 0) as [Hneg|_]; [lia|].
  destruct (Z.le_ge_cases n (Z.of_nat (length xs))) as [Hle|Hge].
  - now rewrite Z.min_l.
  - rewrite Z.min_r, Nat2Z.id by assumption.
    rewrite firstn_all. symmetry. apply firstn_all2. lia.
Qed.

Lemma slice_to_negative {A : Type} (xs : list A) (n : Z) :
  (n < 0)%Z -> slice_to xs n = firstn (length xs - Z.to_nat (- n)) xs.
Proof.
  intros Hn. unfold slice_to.
  destruct (Z.ltb_spec n 0) as [_|Hpos]; [|lia].
  f_equal. lia.
Qed.

(** C8, as the code has it. For a conforming index and every integer [n],
    [get_top_anomalys n] is a prefix of the ranked list of [analyze]: the
    first [min(n, count)] records when [n >= 0] (all of them when
    [n >= count], none when [n = 0]), and the list without its last [-n]
    records when [n < 0]. *)
Theorem get_top_anomalys_is_slice
  (LocalOutlierFactor : Z -> float -> list (list float) -> result (list float))
  (self : AnomalyDetector) (n : Z) (lof_contamination : float) :
  conforming (index self) (k self) ->
  estimator_fits LocalOutlierFactor self lof_contamination ->
  exists ranked,
    analyze LocalOutlierFactor self lof_contamination default_weights = Ok ranked
    /\ length ranked = count (index self)
    /\ ((0 <= n)%Z ->
        get_top_anomalys LocalOutlierFactor self n lof_contamination
        = Ok (firstn (Nat.min (Z.to_nat n) (count (index self))) ranked))
    /\ ((Z.of_nat (count (index self)) <= n)%Z ->
        get_top_anomalys LocalOutlierFactor self n lof_contamination = Ok ranked)
    /\ (n = 0%Z ->
        get_top_anomalys LocalOutlierFactor self n lof_contamination = Ok [])
    /\ ((n < 0)%Z ->
        get_top_anomalys LocalOutlierFactor self n lof_contamination
        = Ok (firstn (count (index self) - Z.to_nat (- n)) ranked)).
Proof.
  intros Hconf Hfits. apply conforming_rows in Hconf.
  destruct (analyze_ranked LocalOutlierFactor self lof_contamination
              default_weights Hconf Hfits) as (ranked & Han & Hlen & _).
  exists ranked. split; [exact Han|]. split; [exact Hlen|].
  unfold get_top_anomalys. rewrite Han. cbn [bind].
  split; [|split; [|split]].
  - intros Hn. rewrite slice_to_nonneg by assumption. f_equal.
    rewrite <- Hlen. destruct (Nat.le_ge_cases (Z.to_nat n) (length ranked)).
    + now rewrite Nat.min_l.
    + rewrite Nat.min_r by assumption. rewrite firstn_all.
      now apply firstn_all2.
  - intros Hn. rewrite slice_to_nonneg by lia. f_equal.
    apply firstn_all2. lia.
  - intros ->. now rewrite slice_to_nonneg by lia.
  - intros Hn. rewrite slice_to_negative by assumption. now rewrite Hlen.
Qed.

Lemma get_top_anomalys_is_slice_witness :
  exists ranked,
    analyze inlier_estimator (mkDetector sample_index 2) 0.1%float default_weights
    = Ok ranked
    /\ length ranked = 3
    /\ ((0 <= 2)%Z ->
        get_top_anomalys inlier_estimator (mkDetector sample_index 2) 2 0.1%float
        = Ok (firstn (Nat.min (Z.to_nat 2) 3) ranked))
    /\ ((3 <= 2)%Z ->
        get_top_anomalys inlier_estimator (mkDetector sample_index 2) 2 0.1%float
        = Ok ranked)
    /\ (2%Z = 0%Z ->
        get_top_anomalys inlier_estimator (mkDetector sample_index 2) 2 0.1%float
        = Ok [])
    /\ ((2 < 0)%Z ->
        get_top_anomalys inlier_estimator (mkDetector sample_index 2) 2 0.1%float
        = Ok (firstn (3 - Z.to_nat (- 2)) ranked)).
Proof.
  apply (get_top_anomalys_is_slice inlier_estimator (mkDetector sample_index 2)
           2%Z 0.1%float).
  - vm_compute. reflexivity.
  - intros _. eexists. split; reflexivity.
Defined.

(** C8 as the spec words it fails for a negative [n]: on the conforming
    three-item sample, [get_top_anomalys(-1)] returns the two best-ranked
    records, not the empty list. *)
Lemma get_top_anomalys_negative_not_empty :
  conforming sample_index 10
  /\ exists first second,
       get_top_anomalys inlier_estimator (mkDetector sample_index 10) (-1) 0.1%float
       = Ok [first; second]
       /\ (item_id first, rank first) = (2, 1)
       /\ (item_id second, rank second) = (0, 2).
Proof.
  split; [vm_compute; reflexivity|].
  eexists. eexists. split; [vm_compute; reflexivity|]. split; reflexivity.
Qed.

(** ** explain_anomaly *)

Open Scope string_scope.

(** The explanation as the specification words it: three threshold rules,
    each contributing at most one clause, looked at in the order distance,
    LOF, reverse-kNN; a fallback clause when none fires; the clauses joined
    by [" | "]. *)
Definition distance_clause (d : float) : option string :=
  if (0.5 <? d)%float then
    Some ("High distance to neighbors (" ++ format_f 3 d
            ++ ") - isolated in embedding space")
  else if (0.3 <? d)%float then
    Some ("Moderate distance to neighbors (" ++ format_f 3 d ++ ")")
  else None.

Definition lof_clause (l : float) : option string :=
  if (1.5 <? l)%float then
    Some ("High LOF score (" ++ format_f 2 l
            ++ ") - in a sparse region compared to neighbors")
  else if (1.2 <? l)%float then
    Some ("Elevated LOF score (" ++ format_f 2 l ++ ")")
  else None.

Definition reverse_clause (c : Z) : option string :=
  if (c =? 0)%Z then
    Some "Zero reverse neighbors - nothing considers this code similar"
  else if (c <? 3)%Z then
    Some ("Low reverse neighbors (" ++ str_of_int c
            ++ ") - rarely referenced as similar")
  else None.

Definition clause_list (c : option string) : list string :=
  match c with
  | Some r => [r]
  | None => []
  end.

Definition fired_clauses (score : AnomalyScore) : list string :=
  (clause_list (distance_clause (knn_distance score))
   ++ clause_list (lof_clause (lof_score score))
   ++ clause_list (reverse_clause (reverse_knn_count score)))%list.

(** The clauses of the explanation: the fired ones, or the fallback alone. *)
Definition reasons_by_rules (score : AnomalyScore) : list string :=
  let fired := fired_clauses score in
  match fired with
  | [] => ["Slightly elevated anomaly metrics"]
  | _ :: _ => fired
  end.

Definition explain_by_rules (score : AnomalyScore) : string :=
  String.concat " | " (reasons_by_rules score).

(** C9. [explain_anomaly] is the rule-by-rule explanation: the distance
    rule, then the LOF rule, then the reverse-kNN rule, each on the raw
    field, the fired clauses joined by [" | "] and a single fallback clause
    when none fires (so between one and three clauses in all).  For
    [knn_distance = 0.6], [lof_score = 1.6], [reverse_knn_count = 0] the
    result is the three clauses in that order, whatever the other fields. *)
Theorem explain_anomaly_rules_in_order :
  (forall score, explain_anomaly score = explain_by_rules score)
  /\ (forall score, (1 <= length (reasons_by_rules score) <= 3)%nat)
  /\ (forall score,
        fired_clauses score = [] ->
        reasons_by_rules score = ["Slightly elevated anomaly metrics"]
        /\ explain_anomaly score = "Slightly elevated anomaly metrics")
  /\ (forall item iso nbs r,
        explain_anomaly (mkAnomalyScore item 0.6 1.6 0 iso nbs r)
        = "High distance to neighbors (0.600) - isolated in embedding space"
          ++ " | "
          ++ "High LOF score (1.60) - in a sparse region compared to neighbors"
          ++ " | "
          ++ "Zero reverse neighbors - nothing considers this code similar").
Proof.
  assert (Heq : forall score, explain_anomaly score = explain_by_rules score).
  { intros [item d l c iso nbs r].
    unfold explain_anomaly, explain_by_rules, reasons_by_rules, fired_clauses,
      distance_clause, lof_clause, reverse_clause, gtb, append.
    cbn [knn_distance lof_score reverse_knn_count].
    destruct (0.5 <? d)%float; [|destruct (0.3 <? d)%float];
      (destruct (1.5 <? l)%float; [|destruct (1.2 <? l)%float]);
      (destruct (c =? 0)%Z; [|destruct (c <? 3)%Z]); reflexivity. }
  split; [exact Heq|]. split; [|split].
  - intros score. unfold reasons_by_rules, fired_clauses.
    destruct (distance_clause _), (lof_clause _), (reverse_clause _); simpl; lia.
  - intros score Hnone. assert (Hr : reasons_by_rules score
                                    = ["Slightly elevated anomaly metrics"]).
    { unfold reasons_by_rules. now rewrite Hnone. }
    split; [exact Hr|]. rewrite Heq. unfold explain_by_rules. now rewrite Hr.
  - intros item iso nbs r. vm_compute. reflexivity.
Qed.

(** C10. The explanation is a function of [knn_distance], [lof_score] and
    [reverse_knn_count] alone: two records that agree on these three fields
    get the same string, whatever their id, isolation score, neighbours and
    rank. *)
Theorem explain_anomaly_depends_on_three_fields (s1 s2 : AnomalyScore) :
  knn_distance s1 = knn_distance s2 ->
  lof_score s1 = lof_score s2 ->
  reverse_knn_count s1 = reverse_knn_count s2 ->
  explain_anomaly s1 = explain_anomaly s2.
Proof.
  destruct s1 as [i1 d1 l1 c1 iso1 nbs1 r1], s2 as [i2 d2 l2 c2 iso2 nbs2 r2].
  cbn [knn_distance lof_score reverse_knn_count]. intros -> -> ->.
  reflexivity.
Qed.

Lemma explain_anomaly_depends_on_three_fields_witness :
  explain_anomaly (mkAnomalyScore 0 0.4 1.3 2 0.9 [1; 2] 1)
  = explain_anomaly (mkAnomalyScore 7 0.4 1.3 2 0.1 [] 5).
Proof.
  apply (explain_anomaly_depends_on_three_fields
           (mkAnomalyScore 0 0.4 1.3 2 0.9 [1; 2] 1)
           (mkAnomalyScore 7 0.4 1.3 2 0.1 [] 5)); reflexivity.
Defined.

Close Scope string_scope.

(** ** Float comparison *)

Lemma finite_compare_eq (s1 s2 : bool) (m1 m2 : positive) (e1 e2 : Z) :
  SFeqb (S754_finite s1 m1 e1) (S754_finite s2 m2 e2) = true ->
  s1 = s2 /\ m1 = m2 /\ e1 = e2.
Proof.
  unfold SFeqb. simpl.
  change (PosDef.Pos.compare_cont Eq m1 m2) with (Pos.compare m1 m2).
  destruct s1, s2; try discriminate;
    destruct (Z.compare_spec e1 e2); try discriminate;
    destruct (Pos.compare_spec m1 m2); try discriminate; intros _; now subst.
Qed.

Lemma SFeqb_finite_refl (s : bool) (m : positive) (e : Z) :
  SFeqb (S754_finite s m e) (S754_finite s m e) = true.
Proof.
  unfold SFeqb. simpl.
  change (PosDef.Pos.compare_cont Eq m m) with (Pos.compare m m).
  rewrite Z.compare_refl, Pos.compare_refl. now destruct s.
Qed.

Lemma SFeqb_trans_sym (a b c : spec_float) :
  SFeqb a c = true -> SFeqb b c = true -> SFeqb a b = true.
Proof.
  destruct a as [sa|sa| |sa ma ea], b as [sb|sb| |sb mb eb], c as [sc|sc| |sc mc ec];
    try (intros Ha Hb; apply finite_compare_eq in Ha, Hb;
         destruct Ha as (-> & -> & ->), Hb as (-> & -> & ->);
         apply SFeqb_finite_refl);
    unfold SFeqb; simpl; try discriminate; try reflexivity;
    try (destruct sa, sb, sc; simpl; try discriminate; reflexivity);
    try (destruct sa, sc; discriminate); try (destruct sb, sc; discriminate).
Qed.

(** [==] on floats is symmetric and transitive where it holds. *)
Lemma float_eqb_trans_sym (x y z : float) :
  (x =? z)%float = true -> (y =? z)%float = true -> (x =? y)%float = true.
Proof. rewrite !FloatAxioms.eqb_spec. apply SFeqb_trans_sym. Qed.

(** ** normalize on a constant array *)

Section ConstantArray.

Variable c : float.

Lemma maximum_const a b :
  (a =? c)%float = true -> (b =? c)%float = true ->
  (Np.maximum a b =? c)%float = true.
Proof. intros Ha Hb. unfold Np.maximum. now destruct (_ || _). Qed.

Lemma minimum_const a b :
  (a =? c)%float = true -> (b =? c)%float = true ->
  (Np.minimum a b =? c)%float = true.
Proof. intros Ha Hb. unfold Np.minimum. now destruct (_ || _). Qed.

Lemma fold_const (op : float -> float -> float) (xs : list float) (a : float) :
  (forall u v, (u =? c)%float = true -> (v =? c)%float = true ->
               (op u v =? c)%float = true) ->
  (a =? c)%float = true ->
  Forall (fun x => (x =? c)%float = true) xs ->
  (fold_left op xs a =? c)%float = true.
Proof.
  intros Hop. revert a. induction xs as [|x xs IH]; intros a Ha Hxs; simpl.
  - exact Ha.
  - inversion Hxs; subst. apply IH; [now apply Hop|assumption].
Qed.

End ConstantArray.

(** Whenever the maximum and the minimum compare equal, every position gets
    0.5, with or without inversion. *)
Lemma normalize_max_eq_min (values : list float) (inverse : bool)
  (arr_max arr_min : float) :
  Np.max values = Ok arr_max -> Np.min values = Ok arr_min ->
  (arr_max =? arr_min)%float = true ->
  normalize values inverse = Ok (dict_const (length values) 0.5%float).
Proof.
  intros Hmax Hmin Heq. unfold normalize. rewrite Hmax, Hmin. cbn [bind].
  now rewrite Heq.
Qed.

(** C4. On a constant array of length at least one (all elements equal to
    the same number, so that max == min), [normalize] returns one entry per
    position and every entry is 0.5, whether or not the inversion flag is
    set. *)
Theorem normalize_constant_array_half (values : list float) (inverse : bool)
  (c : float) :
  values <> [] ->
  Forall (fun x => (x =? c)%float = true) values ->
  exists normalized,
    normalize values inverse = Ok normalized
    /\ dict_keys normalized = seq 0 (length values)
    /\ forall i, i < length values -> dict_get normalized i = Ok 0.5%float.
Proof.
  intros Hne Hconst. destruct values as [|x rest]; [contradiction|].
  inversion Hconst as [|? ? Hx Hrest]; subst.
  exists (dict_const (length (x :: rest)) 0.5%float). split; [|split].
  - eapply normalize_max_eq_min; [reflexivity|reflexivity|].
    eapply float_eqb_trans_sym.
    + apply (fold_const c Np.maximum); [apply maximum_const|assumption|assumption].
    + apply (fold_const c Np.minimum); [apply minimum_const|assumption|assumption].
  - rewrite dict_const_tabulate. apply dict_keys_tabulate.
  - intros i Hi. rewrite dict_const_tabulate. now apply dict_get_tabulate.
Qed.

Lemma normalize_constant_array_half_witness :
  exists normalized,
    normalize [2; 2; 2]%float true = Ok normalized
    /\ dict_keys normalized = [0; 1; 2]
    /\ forall i, i < 3 -> dict_get normalized i = Ok 0.5%float.
Proof.
  apply (normalize_constant_array_half [2; 2; 2]%float true 2%float).
  - discriminate.
  - repeat constructor.
Defined.

(** ** normalize on a non-constant array *)

(** The formula of the non-degenerate branch: position [i] holds
    [(x - min) / (max - min)], or one minus it under inversion. *)
Lemma normalize_non_constant (values : list float) (inverse : bool)
  (arr_max arr_min : float) :
  Np.max values = Ok arr_max -> Np.min values = Ok arr_min ->
  (arr_max =? arr_min)%float = false ->
  normalize values inverse
  = Ok (dict_enumerate
          (map (fun x =>
                  let v := ((x - arr_min) / (arr_max - arr_min))%float in
                  if inverse then (1 - v)%float else v)
             values)).
Proof.
  intros Hmax Hmin Hne. unfold normalize. rewrite Hmax, Hmin. cbn [bind].
  rewrite Hne. destruct inverse; [|reflexivity].
  now rewrite map_map.
Qed.

(** C3 at the array [[0.5, inf]], which is what the kNN signal looks like
    when one item has a neighbour at distance 0.5 and the other has none:
    the array is not constant, its minimum maps to 0 (to 1 under inversion),
    but its maximum maps to [inf / inf], a NaN, with or without inversion;
    NaN is neither 1 nor 0 and compares outside every interval. *)
Theorem normalize_infinite_maximum_is_nan :
  Np.max [0.5; infinity]%float = Ok infinity
  /\ Np.min [0.5; infinity]%float = Ok 0.5%float
  /\ (infinity =? 0.5)%float = false
  /\ normalize [0.5; infinity]%float false = Ok [(0, 0%float); (1, nan)]
  /\ normalize [0.5; infinity]%float true = Ok [(0, 1%float); (1, nan)]
  /\ (nan =? 1)%float = false
  /\ (nan =? 0)%float = false
  /\ (0 <=? nan)%float = false
  /\ (nan <=? 1)%float = false.
Proof. vm_compute. repeat split. Qed.

(** ** The isolation score on an index with an orphan *)

(** C5 on the conforming three-item index whose middle item has no
    neighbour, under the default weights: the combined score of that item is
    NaN, which is not in [0, 1]. *)
Theorem isolation_score_of_orphan_is_nan :
  conforming orphan_index 10
  /\ compute_knn_distances (mkDetector orphan_index 10)
     = [(0, (0.1%float, [2])); (1, (infinity, [])); (2, (0.1%float, [0]))]
  /\ compute_lof inlier_estimator (mkDetector orphan_index 10) 0.1%float
     = Ok [(0, 1%float); (1, 1%float); (2, 1%float)]
  /\ compute_reverse_knn (mkDetector orphan_index 10)
     = [(2, 1%Z); (0, 1%Z); (1, 0%Z)]
  /\ compute_isolation_score
       (compute_knn_distances (mkDetector orphan_index 10))
       [(0, 1%float); (1, 1%float); (2, 1%float)]
       (compute_reverse_knn (mkDetector orphan_index 10)) default_weights
     = Ok [(0, 0.2%float); (1, nan); (2, 0.4%float)]
  /\ (0 <=? nan)%float = false
  /\ (nan <=? 1)%float = false.
Proof. vm_compute. repeat split. Qed.

(** ** The ranked list on an index with an orphan *)

(** C2 on the same index: [analyze] returns the items in the order 0, 1, 2
    with ranks 1, 2, 3 and isolation scores 0.2, NaN, 0.4.  The score at
    rank 3 is strictly greater than the score at rank 1, and the NaN at
    rank 2 is not below-or-equal the score before it. *)
Theorem analyze_orphan_index_not_descending :
  conforming orphan_index 10
  /\ (exists scores,
        analyze inlier_estimator (mkDetector orphan_index 10) 0.1%float
          default_weights = Ok scores
        /\ map item_id scores = [0; 1; 2]
        /\ map rank scores = [1; 2; 3]
        /\ map isolation_score scores = [0.2%float; nan; 0.4%float])
  /\ (0.2 <? 0.4)%float = true
  /\ (nan <=? 0.2)%float = false.
Proof.
  split; [vm_compute; reflexivity|]. split; [|split; vm_compute; reflexivity].
  eexists. split; [vm_compute; reflexivity|]. repeat split.
Qed.

(** ** The order of the ranked list when no score is NaN *)

Ltac cmp_cases :=
  repeat match goal with
  | |- context [PosDef.Pos.compare_cont Eq ?a ?b] =>
      change (PosDef.Pos.compare_cont Eq a b) with (Pos.compare a b)
  | H : context [PosDef.Pos.compare_cont Eq ?a ?b] |- _ =>
      change (PosDef.Pos.compare_cont Eq a b) with (Pos.compare a b) in H
  end;
  repeat match goal with
  | |- context [Z.compare ?a ?b] => destruct (Z.compare_spec a b)
  | H : context [Z.compare ?a ?b] |- _ => destruct (Z.compare_spec a b)
  | |- context [Pos.compare ?a ?b] => destruct (Pos.compare_spec a b)
  | H : context [Pos.compare ?a ?b] |- _ => destruct (Pos.compare_spec a b)
  end;
  simpl in *; try discriminate; try reflexivity; try lia.

Lemma SFleb_trans (a b c : spec_float) :
  SFleb a b = true -> SFleb b c = true -> SFleb a c = true.
Proof.
  unfold SFleb.
  destruct a as [sa|sa| |sa ma ea], b as [sb|sb| |sb mb eb], c as [sc|sc| |sc mc ec];
    simpl; try discriminate; try reflexivity;
    try (destruct sa); try (destruct sb); try (destruct sc);
    simpl; try discriminate; try reflexivity; cmp_cases.
Qed.

Lemma SFltb_false_leb (a b : spec_float) :
  a <> S754_nan -> b <> S754_nan -> SFltb a b = false -> SFleb b a = true.
Proof.
  unfold SFltb, SFleb.
  destruct a as [sa|sa| |sa ma ea], b as [sb|sb| |sb mb eb];
    simpl; try congruence; intros _ _;
    try (destruct sa); try (destruct sb);
    simpl; try discriminate; try reflexivity; cmp_cases.
Qed.

Lemma SFltb_true (a b : spec_float) :
  SFltb a b = true -> SFleb a b = true /\ SFeqb b a = false.
Proof.
  unfold SFltb, SFleb, SFeqb.
  destruct a as [sa|sa| |sa ma ea], b as [sb|sb| |sb mb eb];
    simpl; try discriminate;
    try (destruct sa); try (destruct sb);
    simpl; try discriminate; try (split; reflexivity); cmp_cases;
    intros; split; try reflexivity; try discriminate; cmp_cases.
Qed.

Lemma not_nan_spec (x : float) : is_nan x = false -> Prim2SF x <> S754_nan.
Proof.
  unfold is_nan. rewrite FloatAxioms.eqb_spec. intros H E. rewrite E in H.
  discriminate.
Qed.

Lemma float_leb_trans (x y z : float) :
  (x <=? y)%float = true -> (y <=? z)%float = true -> (x <=? z)%float = true.
Proof. rewrite !leb_spec. apply SFleb_trans. Qed.

Lemma float_ltb_false_leb (x y : float) :
  is_nan x = false -> is_nan y = false ->
  (x <? y)%float = false -> (y <=? x)%float = true.
Proof.
  intros Hx Hy. rewrite ltb_spec, leb_spec.
  apply SFltb_false_leb; now apply not_nan_spec.
Qed.

Lemma float_ltb_true (x y : float) :
  (x <? y)%float = true -> (x <=? y)%float = true /\ (y =? x)%float = false.
Proof. rewrite ltb_spec, leb_spec, FloatAxioms.eqb_spec. apply SFltb_true. Qed.

(** [a] is ranked before [b]: its score is at least as high, and on a tie
    its id is the smaller one. *)
Definition ranked_before (a b : AnomalyScore) : Prop :=
  (isolation_score b <=? isolation_score a)%float = true
  /\ ((isolation_score a =? isolation_score b)%float = true ->
      item_id a < item_id b).

Definition score_known (s : AnomalyScore) : Prop :=
  is_nan (isolation_score s) = false.

Lemma insert_desc_sorted (x : AnomalyScore) (sorted : list AnomalyScore) :
  score_known x -> Forall score_known sorted ->
  Forall (fun y => item_id x < item_id y) sorted ->
  StronglySorted ranked_before sorted ->
  StronglySorted ranked_before (insert_desc isolation_score x sorted).
Proof.
  intros Hx. induction sorted as [|y rest IH]; intros Hknown Hids Hsorted; simpl.
  - constructor; constructor.
  - inversion Hknown as [|? ? Hy Hrest]; subst.
    inversion Hids as [|? ? Hidy Hidrest]; subst.
    inversion Hsorted as [|? ? Hsrest Hyrest]; subst.
    destruct (isolation_score x <? isolation_score y)%float eqn:E.
    + constructor; [now apply IH|].
      apply (Permutation_Forall (insert_desc_perm isolation_score x rest)).
      constructor; [|assumption].
      apply float_ltb_true in E. destruct E as [Hle Hneq].
      split; [assumption|intros Heq; congruence].
    + assert (Hyx : (isolation_score y <=? isolation_score x)%float = true)
        by now apply float_ltb_false_leb.
      constructor; [assumption|]. constructor.
      * split; [assumption|now intros _].
      * rewrite Forall_forall in *. intros z Hz. split.
        -- eapply float_leb_trans; [apply (Hyrest z Hz)|assumption].
        -- intros _. now apply Hidrest.
Qed.

(** A list in ascending id order without NaN scores comes out of the sort
    in descending score order, ties in ascending id order. *)
Lemma sort_desc_sorted (scores : list AnomalyScore) :
  Forall score_known scores ->
  StronglySorted (fun a b => item_id a < item_id b) scores ->
  StronglySorted ranked_before (sort_desc isolation_score scores).
Proof.
  induction scores as [|x rest IH]; intros Hknown Hids; simpl.
  - constructor.
  - inversion Hknown; subst. inversion Hids; subst.
    apply insert_desc_sorted; try assumption.
    + now apply (Permutation_Forall (sort_desc_perm isolation_score rest)).
    + now apply (Permutation_Forall (sort_desc_perm isolation_score rest)).
    + now apply IH.
Qed.

Lemma assign_ranks_sorted start scores :
  StronglySorted ranked_before scores ->
  StronglySorted ranked_before (assign_ranks start scores).
Proof.
  revert start. induction scores as [|s rest IH]; intros start Hs; simpl.
  - constructor.
  - inversion Hs as [|? ? Hrest Hall]; subst. constructor; [now apply IH|].
    clear IH Hs Hrest. generalize (S start) as r.
    induction rest as [|y rest IH]; intros r; simpl; constructor.
    + inversion Hall; subst. assumption.
    + apply IH. now inversion Hall.
Qed.

Lemma seq_ids_sorted (f : nat -> AnomalyScore) (len start : nat) :
  (forall i, item_id (f i) = i) ->
  StronglySorted (fun a b => item_id a < item_id b) (map f (seq start len)).
Proof.
  intros Hid. revert start. induction len as [|len IH]; intros start; simpl.
  - constructor.
  - constructor; [apply IH|]. apply Forall_forall. intros y Hy.
    apply in_map_iff in Hy. destruct Hy as [i [<- Hi]]. apply in_seq in Hi.
    rewrite !Hid. lia.
Qed.

(** When none of the isolation scores is NaN, the list [analyze] returns is
    in non-increasing score order and equal scores are in ascending
    [item_id] order. *)
Theorem analyze_sorted_when_no_nan
  (LocalOutlierFactor : Z -> float -> list (list float) -> result (list float))
  (self : AnomalyDetector) (lof_contamination : float)
  (weights : float * float * float) (scores : list AnomalyScore) :
  conforming (index self) (k self) ->
  estimator_fits LocalOutlierFactor self lof_contamination ->
  analyze LocalOutlierFactor self lof_contamination weights = Ok scores ->
  Forall (fun s => is_nan (isolation_score s) = false) scores ->
  StronglySorted ranked_before scores.
Proof.
  intros Hconf Hfits Han Hknown. apply conforming_rows in Hconf.
  destruct (Nat.eq_dec (count (index self)) 0) as [E|Hn].
  - rewrite analyze_empty_index in Han by assumption.
    injection Han as <-. constructor.
  - destruct (analyze_unfold LocalOutlierFactor self lof_contamination Hconf Hfits
                weights Hn) as (lofv & iso & _ & _ & Han').
    rewrite Han' in Han. injection Han as <-.
    set (raw := map (raw_score self lofv iso) (seq 0 (count (index self)))) in *.
    apply assign_ranks_sorted, sort_desc_sorted.
    + apply (Permutation_Forall
               (Permutation_sym (sort_desc_perm isolation_score raw))).
      destruct (assign_ranks_frame 1 (sort_desc isolation_score raw))
        as (_ & _ & _ & _ & Hiso & _).
      apply Forall_forall. intros s Hs.
      assert (HIn : In (isolation_score s)
                      (map isolation_score (sort_desc isolation_score raw)))
        by now apply in_map.
      rewrite <- Hiso in HIn. apply in_map_iff in HIn.
      destruct HIn as [s' [Heq Hs']].
      rewrite Forall_forall in Hknown. unfold score_known. rewrite <- Heq.
      now apply Hknown.
    + apply seq_ids_sorted. reflexivity.
Qed.

Lemma analyze_sorted_when_no_nan_witness :
  exists scores,
    analyze inlier_estimator (mkDetector sample_index 2) 0.1%float default_weights
    = Ok scores
    /\ map item_id scores = [2; 0; 1]
    /\ StronglySorted ranked_before scores.
Proof.
  eexists. split; [vm_compute; reflexivity|]. split; [reflexivity|].
  apply (analyze_sorted_when_no_nan inlier_estimator (mkDetector sample_index 2)
           0.1%float default_weights).
  - vm_compute. reflexivity.
  - intros _. eexists. split; reflexivity.
  - vm_compute. reflexivity.
  - repeat constructor.
Defined.

(** ** Further properties of the pipeline *)

Lemma normalize_non_constant_witness :
  normalize [1; 2; 3]%float true
  = Ok (dict_enumerate
          (map (fun x =>
                  let v := ((x - 1) / (3 - 1))%float in
                  if true then (1 - v)%float else v)
             [1; 2; 3]%float)).
Proof.
  apply (normalize_non_constant [1; 2; 3]%float true 3%float 1%float);
    reflexivity.
Defined.

(** The reverse-kNN term of the combination is read by position in
    [reverse_knn.values()], and the mapping lists its keys in the order in
    which ids were first listed, not in id order.  On the index with an
    orphan the keys are 2, 0, 1: the never-listed item 1 receives the term
    0.0 that belongs to an item listed once, and item 2, listed once,
    receives the orphan's 1.0. *)
Theorem reverse_knn_term_is_positional :
  dict_keys (compute_reverse_knn (mkDetector orphan_index 10)) = [2; 0; 1]
  /\ dict_values (compute_reverse_knn (mkDetector orphan_index 10))
     = [1; 1; 0]%Z
  /\ normalize
       (map float_of_int
          (dict_values (compute_reverse_knn (mkDetector orphan_index 10)))) true
     = Ok [(0, 0%float); (1, 0%float); (2, 1%float)]
  /\ dict_get (compute_reverse_knn (mkDetector orphan_index 10)) 1 = Ok 0%Z
  /\ dict_get (compute_reverse_knn (mkDetector orphan_index 10)) 2 = Ok 1%Z.
Proof. vm_compute. repeat split. Qed.

(** * Further properties of the code *)

(** ** Special values in float arithmetic *)

Lemma is_nan_spec (x : float) : is_nan x = true <-> Prim2SF x = S754_nan.
Proof.
  unfold is_nan. rewrite FloatAxioms.eqb_spec. unfold SFeqb.
  destruct (Prim2SF x) as [s|s| |s m e]; simpl.
  - split; discriminate.
  - destruct s; split; discriminate.
  - split; reflexivity.
  - change (PosDef.Pos.compare_cont Eq m m) with (Pos.compare m m).
    rewrite Z.compare_refl, Pos.compare_refl. destruct s; split; discriminate.
Qed.

Lemma is_nan_false_spec (x : float) : is_nan x = false <-> Prim2SF x <> S754_nan.
Proof.
  rewrite <- is_nan_spec. destruct (is_nan x); split; congruence.
Qed.

Lemma nan_sub_l (x y : float) : is_nan x = true -> is_nan (x - y) = true.
Proof. rewrite !is_nan_spec, sub_spec. intros ->. reflexivity. Qed.

Lemma nan_sub_r (x y : float) : is_nan y = true -> is_nan (x - y) = true.
Proof.
  rewrite !is_nan_spec, sub_spec. intros ->. unfold SF64sub.
  now destruct (Prim2SF x).
Qed.

Lemma nan_div_r (x y : float) : is_nan y = true -> is_nan (x / y) = true.
Proof.
  rewrite !is_nan_spec, div_spec. intros ->. unfold SF64div.
  now destruct (Prim2SF x).
Qed.

Lemma nan_mul_r (x y : float) : is_nan y = true -> is_nan (x * y) = true.
Proof.
  rewrite !is_nan_spec, mul_spec. intros ->. unfold SF64mul.
  now destruct (Prim2SF x).
Qed.

Lemma nan_add_l (x y : float) : is_nan x = true -> is_nan (x + y) = true.
Proof. rewrite !is_nan_spec, add_spec. intros ->. reflexivity. Qed.

Lemma nan_add_r (x y : float) : is_nan y = true -> is_nan (x + y) = true.
Proof.
  rewrite !is_nan_spec, add_spec. intros ->. unfold SF64add.
  now destruct (Prim2SF x).
Qed.

Lemma nan_eqb_l (x y : float) : is_nan x = true -> (x =? y)%float = false.
Proof. rewrite is_nan_spec, FloatAxioms.eqb_spec. intros ->. reflexivity. Qed.

Lemma nan_leb_l (x y : float) : is_nan x = true -> (x <=? y)%float = false.
Proof. rewrite is_nan_spec, leb_spec. intros ->. reflexivity. Qed.

Lemma nan_leb_r (x y : float) : is_nan y = true -> (x <=? y)%float = false.
Proof.
  rewrite is_nan_spec, leb_spec. intros ->. unfold SFleb.
  now destruct (Prim2SF x).
Qed.

(** Zero or a finite number, as opposed to an infinity or a NaN. *)
Definition sf_bounded (s : spec_float) : bool :=
  match s with
  | S754_zero _ | S754_finite _ _ _ => true
  | S754_infinity _ | S754_nan => false
  end.

Definition is_pos_inf (x : float) : Prop := Prim2SF x = S754_infinity false.

Lemma inf_sub_bounded (x y : float) :
  is_pos_inf x -> sf_bounded (Prim2SF y) = true -> is_pos_inf (x - y).
Proof.
  unfold is_pos_inf. intros Hx Hy. rewrite sub_spec, Hx. unfold SF64sub.
  destruct (Prim2SF y); simpl in *; try discriminate; reflexivity.
Qed.

Lemma inf_div_inf (x y : float) :
  is_pos_inf x -> is_pos_inf y -> is_nan (x / y) = true.
Proof.
  unfold is_pos_inf. intros Hx Hy. rewrite is_nan_spec, div_spec, Hx, Hy.
  reflexivity.
Qed.

Lemma bounded_of_range (y : float) :
  (0 <=? y)%float = true -> (y <? infinity)%float = true ->
  sf_bounded (Prim2SF y) = true.
Proof.
  rewrite leb_spec, ltb_spec.
  change (Prim2SF 0) with (S754_zero false).
  change (Prim2SF infinity) with (S754_infinity false).
  destruct (Prim2SF y) as [s|s| |s m e]; simpl; try reflexivity; try discriminate.
  destruct s; discriminate.
Qed.

Lemma nonneg_not_nan (y : float) : (0 <=? y)%float = true -> is_nan y = false.
Proof.
  intros H. destruct (is_nan y) eqn:E; [|reflexivity].
  now rewrite (nan_leb_r 0 y E) in H.
Qed.

Lemma SFleb_total (a b : spec_float) :
  a <> S754_nan -> b <> S754_nan -> SFleb a b = false -> SFleb b a = true.
Proof.
  unfold SFleb.
  destruct a as [sa|sa| |sa ma ea], b as [sb|sb| |sb mb eb];
    simpl; try congruence; intros _ _;
    try (destruct sa); try (destruct sb);
    simpl; try discriminate; try reflexivity; cmp_cases.
Qed.

Lemma SFleb_ltb_trans (a b c : spec_float) :
  SFleb a b = true -> SFltb b c = true -> SFltb a c = true.
Proof.
  unfold SFleb, SFltb.
  destruct a as [sa|sa| |sa ma ea], b as [sb|sb| |sb mb eb], c as [sc|sc| |sc mc ec];
    simpl; try discriminate; try reflexivity;
    try (destruct sa); try (destruct sb); try (destruct sc);
    simpl; try discriminate; try reflexivity; cmp_cases.
Qed.

Lemma float_leb_total (x y : float) :
  is_nan x = false -> is_nan y = false ->
  (x <=? y)%float = false -> (y <=? x)%float = true.
Proof.
  rewrite !is_nan_false_spec, !leb_spec. apply SFleb_total.
Qed.

Lemma float_leb_ltb_trans (x y z : float) :
  (x <=? y)%float = true -> (y <? z)%float = true -> (x <? z)%float = true.
Proof. rewrite leb_spec, !ltb_spec. apply SFleb_ltb_trans. Qed.

Lemma leb_pos_inf (x y : float) :
  is_nan x = false -> is_pos_inf y -> (x <=? y)%float = true.
Proof.
  unfold is_pos_inf. rewrite is_nan_false_spec, leb_spec. intros Hx ->.
  unfold SFleb. destruct (Prim2SF x) as [s|s| |s m e]; simpl;
    try reflexivity; try congruence. now destruct s.
Qed.

Lemma pos_inf_leb (x y : float) :
  is_pos_inf x -> (x <=? y)%float = true -> is_pos_inf y.
Proof.
  unfold is_pos_inf. rewrite leb_spec. intros ->. unfold SFleb.
  destruct (Prim2SF y) as [s|s| |s m e]; simpl; try discriminate.
  destruct s; [discriminate|reflexivity].
Qed.

Lemma infinity_is_pos_inf : is_pos_inf infinity.
Proof. reflexivity. Qed.

Lemma pos_inf_not_nan (x : float) : is_pos_inf x -> is_nan x = false.
Proof.
  unfold is_pos_inf. intros H. apply is_nan_false_spec. rewrite H. discriminate.
Qed.

Lemma pos_inf_not_bounded (x y : float) :
  is_pos_inf x -> sf_bounded (Prim2SF y) = true -> (x =? y)%float = false.
Proof.
  unfold is_pos_inf. rewrite FloatAxioms.eqb_spec. intros -> Hy.
  unfold SFeqb. destruct (Prim2SF y); simpl in *; try discriminate; reflexivity.
Qed.

(** ** The reductions [arr.max()] and [arr.min()] *)

Lemma maximum_nan (a b : float) :
  is_nan a = true \/ is_nan b = true -> is_nan (Np.maximum a b) = true.
Proof.
  unfold Np.maximum. destruct (is_nan a) eqn:Ea.
  - intros _. now rewrite orb_true_r.
  - intros [H|Hb]; [discriminate|]. now rewrite (nan_leb_l b a Hb).
Qed.

Lemma minimum_nan (a b : float) :
  is_nan a = true \/ is_nan b = true -> is_nan (Np.minimum a b) = true.
Proof.
  unfold Np.minimum. destruct (is_nan a) eqn:Ea.
  - intros _. now rewrite orb_true_r.
  - intros [H|Hb]; [discriminate|]. now rewrite (nan_leb_r a b Hb).
Qed.

Lemma fold_nan (op : float -> float -> float) :
  (forall a b, is_nan a = true \/ is_nan b = true -> is_nan (op a b) = true) ->
  forall xs acc,
    is_nan acc = true \/ Exists (fun x => is_nan x = true) xs ->
    is_nan (fold_left op xs acc) = true.
Proof.
  intros Hop. induction xs as [|x xs IH]; intros acc H; simpl.
  - destruct H as [H|H]; [assumption|inversion H].
  - apply IH. destruct H as [H|H].
    + left. apply Hop. now left.
    + inversion H; subst; [left; apply Hop; now right|now right].
Qed.

Lemma maximum_choice (a b : float) : Np.maximum a b = a \/ Np.maximum a b = b.
Proof. unfold Np.maximum. destruct (_ || _); auto. Qed.

Lemma minimum_choice (a b : float) : Np.minimum a b = a \/ Np.minimum a b = b.
Proof. unfold Np.minimum. destruct (_ || _); auto. Qed.

Lemma maximum_pos_inf (a b : float) :
  is_nan a = false -> is_nan b = false ->
  is_pos_inf a \/ is_pos_inf b -> is_pos_inf (Np.maximum a b).
Proof.
  intros Ha Hb H. unfold Np.maximum. rewrite Ha, orb_false_r.
  destruct H as [H|H].
  - now rewrite (leb_pos_inf b a Hb H).
  - destruct (b <=? a)%float eqn:E; [|assumption].
    eapply pos_inf_leb; eassumption.
Qed.

Lemma fold_maximum_pos_inf (xs : list float) (acc : float) :
  is_nan acc = false -> Forall (fun x => is_nan x = false) xs ->
  is_pos_inf acc \/ Exists is_pos_inf xs ->
  is_pos_inf (fold_left Np.maximum xs acc).
Proof.
  revert acc. induction xs as [|x xs IH]; intros acc Hacc Hxs H; simpl.
  - destruct H as [H|H]; [assumption|inversion H].
  - inversion Hxs as [|? ? Hx Hrest]; subst. apply IH.
    + destruct (maximum_choice acc x) as [-> | ->]; assumption.
    + assumption.
    + destruct H as [H|H].
      * left. apply maximum_pos_inf; auto.
      * inversion H; subst; [left; apply maximum_pos_inf; auto|now right].
Qed.

(** A number of the range [[0, inf)]. *)
Definition nonneg (x : float) : Prop := (0 <=? x)%float = true.
Definition below_inf (x : float) : Prop := (x <? infinity)%float = true.

Lemma minimum_below_inf (a b : float) :
  nonneg a -> nonneg b -> below_inf a \/ below_inf b ->
  below_inf (Np.minimum a b).
Proof.
  unfold nonneg, below_inf. intros Ha Hb H. unfold Np.minimum.
  rewrite (nonneg_not_nan a Ha), orb_false_r.
  destruct (a <=? b)%float eqn:E.
  - destruct H as [H|H]; [assumption|].
    eapply float_leb_ltb_trans; eassumption.
  - destruct H as [H|H]; [|assumption].
    eapply float_leb_ltb_trans; [|exact H].
    apply float_leb_total; auto using nonneg_not_nan.
Qed.

Lemma fold_minimum_range (xs : list float) (acc : float) :
  nonneg acc -> Forall nonneg xs ->
  below_inf acc \/ Exists below_inf xs ->
  nonneg (fold_left Np.minimum xs acc) /\ below_inf (fold_left Np.minimum xs acc).
Proof.
  revert acc. induction xs as [|x xs IH]; intros acc Hacc Hxs H; simpl.
  - destruct H as [H|H]; [now split|inversion H].
  - inversion Hxs as [|? ? Hx Hrest]; subst. apply IH.
    + destruct (minimum_choice acc x) as [-> | ->]; assumption.
    + assumption.
    + destruct H as [H|H].
      * left. apply minimum_below_inf; auto.
      * inversion H; subst; [left; apply minimum_below_inf; auto|now right].
Qed.

(** ** normalize, position by position *)

(** The value [normalize] stores at position [i] of a non-empty array. *)
Definition norm_at (values : list float) (inverse : bool) (i : nat) : float :=
  match Np.max values, Np.min values with
  | Ok arr_max, Ok arr_min =>
      if (arr_max =? arr_min)%float then 0.5%float
      else
        let v := ((nth i values 0 - arr_min) / (arr_max - arr_min))%float in
        if inverse then (1 - v)%float else v
  | _, _ => 0%float
  end.

Lemma normalize_explicit (values : list float) (inverse : bool) :
  values <> [] ->
  normalize values inverse
  = Ok (map (fun j => (j, norm_at values inverse j)) (seq 0 (length values))).
Proof.
  intros Hne. destruct values as [|x rest]; [contradiction|].
  unfold normalize, norm_at. cbn [Np.max Np.min bind].
  set (mx := fold_left Np.maximum rest x). set (mn := fold_left Np.minimum rest x).
  destruct (mx =? mn)%float; [reflexivity|].
  f_equal. destruct inverse.
  - rewrite (dict_enumerate_tabulate _
               (1 - (0 - mn) / (mx - mn))%float).
    rewrite !length_map. apply map_ext. intros j. f_equal.
    rewrite (map_nth (fun v => (1 - v)%float)). f_equal.
    apply (map_nth (fun y => ((y - mn) / (mx - mn))%float)).
  - rewrite (dict_enumerate_tabulate _ ((0 - mn) / (mx - mn))%float).
    rewrite !length_map. apply map_ext. intros j. f_equal.
    apply (map_nth (fun y => ((y - mn) / (mx - mn))%float)).
Qed.

(** [normalize] raises exactly on the empty array, where numpy cannot reduce;
    on every other array it returns one entry per position, keyed
    0, 1, ..., n-1 in this order. *)
Theorem normalize_raises_only_on_empty :
  (forall inverse, normalize [] inverse = Raise ValueError)
  /\ (forall values inverse,
        values <> [] ->
        exists normalized,
          normalize values inverse = Ok normalized
          /\ dict_keys normalized = seq 0 (length values)
          /\ length normalized = length values).
Proof.
  split; [reflexivity|]. intros values inverse Hne.
  eexists. split; [now apply normalize_explicit|]. split.
  - apply dict_keys_tabulate.
  - apply length_tabulate.
Qed.

(** The inversion flag replaces every normalised value [v] by [1 - v]; this
    also holds on a constant array, where both results are 0.5. *)
Theorem normalize_inverse_is_complement (values : list float) :
  values <> [] ->
  exists plain inverted,
    normalize values false = Ok plain
    /\ normalize values true = Ok inverted
    /\ forall i, i < length values ->
         exists v, dict_get plain i = Ok v
                   /\ dict_get inverted i = Ok (1 - v)%float.
Proof.
  intros Hne. do 2 eexists.
  split; [now apply normalize_explicit|].
  split; [now apply normalize_explicit|].
  intros i Hi. exists (norm_at values false i).
  rewrite !dict_get_tabulate by assumption. split; [reflexivity|].
  f_equal. unfold norm_at. clear Hi.
  destruct values as [|x rest]; [contradiction|]. cbn [Np.max Np.min].
  destruct (_ =? _)%float; reflexivity.
Qed.

Lemma normalize_inverse_is_complement_witness :
  exists plain inverted,
    normalize [1; 2; 4]%float false = Ok plain
    /\ normalize [1; 2; 4]%float true = Ok inverted
    /\ forall i, i < 3 ->
         exists v, dict_get plain i = Ok v
                   /\ dict_get inverted i = Ok (1 - v)%float.
Proof.
  apply (normalize_inverse_is_complement [1; 2; 4]%float). discriminate.
Defined.

Lemma max_min_nan (values : list float) :
  Exists (fun x => is_nan x = true) values ->
  exists mx mn,
    Np.max values = Ok mx /\ Np.min values = Ok mn
    /\ is_nan mx = true /\ is_nan mn = true.
Proof.
  intros H. destruct values as [|x rest]; [inversion H|].
  do 2 eexists. split; [reflexivity|]. split; [reflexivity|].
  split; (apply fold_nan; [apply maximum_nan || apply minimum_nan|]);
    (inversion H; subst; [now left|now right]).
Qed.

(** One NaN anywhere in the array makes every normalised value NaN, with or
    without inversion. *)
Theorem normalize_nan_spreads (values : list float) (inverse : bool) :
  Exists (fun x => is_nan x = true) values ->
  exists normalized,
    normalize values inverse = Ok normalized
    /\ dict_keys normalized = seq 0 (length values)
    /\ forall i, i < length values ->
         exists v, dict_get normalized i = Ok v /\ is_nan v = true.
Proof.
  intros H. assert (Hne : values <> []) by (intros ->; inversion H).
  destruct (max_min_nan values H) as (mx & mn & Hmx & Hmn & Nmx & Nmn).
  eexists. split; [now apply normalize_explicit|].
  split; [apply dict_keys_tabulate|].
  intros i Hi. eexists. split; [now apply dict_get_tabulate|].
  unfold norm_at. rewrite Hmx, Hmn, (nan_eqb_l mx mn Nmx).
  assert (Hv : is_nan ((nth i values 0 - mn) / (mx - mn))%float = true)
    by now apply nan_div_r, nan_sub_l.
  destruct inverse; [now apply nan_sub_r|exact Hv].
Qed.

Lemma normalize_nan_spreads_witness :
  exists normalized,
    normalize [1; nan; 3]%float false = Ok normalized
    /\ dict_keys normalized = [0; 1; 2]
    /\ forall i, i < 3 ->
         exists v, dict_get normalized i = Ok v /\ is_nan v = true.
Proof.
  apply (normalize_nan_spreads [1; nan; 3]%float false).
  right. left. reflexivity.
Defined.

Lemma max_min_of_unbounded (values : list float) :
  Forall nonneg values -> Exists below_inf values -> Exists is_pos_inf values ->
  exists mx mn,
    Np.max values = Ok mx /\ Np.min values = Ok mn
    /\ is_pos_inf mx /\ sf_bounded (Prim2SF mn) = true.
Proof.
  intros Hpos Hfin Hinf. destruct values as [|x rest]; [inversion Hfin|].
  inversion Hpos as [|? ? Hx Hrest]; subst.
  do 2 eexists. split; [reflexivity|]. split; [reflexivity|]. split.
  - apply fold_maximum_pos_inf.
    + now apply nonneg_not_nan.
    + eapply Forall_impl; [|exact Hrest]. intros a. apply nonneg_not_nan.
    + inversion Hinf; subst; [now left|now right].
  - destruct (fold_minimum_range rest x Hx Hrest) as [H0 Hlt].
    + inversion Hfin; subst; [now left|now right].
    + now apply bounded_of_range.
Qed.

(** On an array of non-negative values that holds a finite value, every
    [+inf] element is normalised to NaN, not to 1 (and not to 0 under
    inversion): the code divides [inf - min] by [inf - min]. *)
Theorem normalize_infinite_element_is_nan (values : list float) (inverse : bool) :
  Forall (fun x => (0 <=? x)%float = true) values ->
  Exists (fun x => (x <? infinity)%float = true) values ->
  exists normalized,
    normalize values inverse = Ok normalized
    /\ forall i, i < length values -> nth i values 0%float = infinity ->
         exists v, dict_get normalized i = Ok v /\ is_nan v = true.
Proof.
  intros Hpos Hfin.
  assert (Hne : values <> []) by (intros ->; inversion Hfin).
  eexists. split; [now apply normalize_explicit|].
  intros i Hi Hinf. eexists. split; [now apply dict_get_tabulate|].
  destruct (max_min_of_unbounded values Hpos Hfin)
    as (mx & mn & Hmx & Hmn & Imx & Bmn).
  { apply Exists_exists. exists infinity. split; [|reflexivity].
    rewrite <- Hinf. now apply nth_In. }
  unfold norm_at. rewrite Hmx, Hmn, (pos_inf_not_bounded mx mn Imx Bmn), Hinf.
  assert (Hv : is_nan ((infinity - mn) / (mx - mn))%float = true).
  { apply inf_div_inf; apply inf_sub_bounded; auto using infinity_is_pos_inf. }
  destruct inverse; [now apply nan_sub_r|exact Hv].
Qed.

Lemma normalize_infinite_element_is_nan_witness :
  exists normalized,
    normalize [0.25; infinity; 0.5; infinity]%float true = Ok normalized
    /\ forall i, i < 4 -> nth i [0.25; infinity; 0.5; infinity]%float 0%float = infinity ->
         exists v, dict_get normalized i = Ok v /\ is_nan v = true.
Proof.
  apply (normalize_infinite_element_is_nan
           [0.25; infinity; 0.5; infinity]%float true).
  - repeat constructor.
  - left. reflexivity.
Defined.

(** ** compute_isolation_score: formula and failures *)

Lemma dict_get_tabulate_out {V : Type} (f : nat -> V) (len i : nat) :
  len <= i -> dict_get (map (fun j => (j, f j)) (seq 0 len)) i = Raise KeyError.
Proof.
  intros Hi. unfold dict_get.
  assert (E : dict_find i (map (fun j => (j, f j)) (seq 0 len)) = None).
  { apply dict_find_None. rewrite dict_keys_tabulate, in_seq. lia. }
  now rewrite E.
Qed.

(** A loop stops with the exception of the first element whose body
    raises. *)
Lemma for_each_raises {A S : Type} (body : S -> A -> result S) (step : S -> A -> S)
  (before : list A) (x : A) (after : list A) (acc : S) (e : exn) :
  (forall s y, In y before -> body s y = Ok (step s y)) ->
  (forall s, body s x = Raise e) ->
  for_each body (before ++ x :: after) acc = Raise e.
Proof.
  revert acc. induction before as [|y before IH]; intros acc Hok Hx; simpl.
  - now rewrite Hx.
  - rewrite Hok by now left. simpl. apply IH; [|assumption].
    intros s z Hz. apply Hok. now right.
Qed.

Lemma values_length {V : Type} (d : dict V) : length (dict_values d) = length d.
Proof. apply length_map. Qed.

Lemma nonempty_of_length {A : Type} (l : list A) : 0 < length l -> l <> [].
Proof. intros H ->. simpl in H. lia. Qed.

(** The combination, read off the three normalised maps.  The maps are read
    by position: the keys of [lof_scores] and [reverse_knn] play no part. *)
Theorem compute_isolation_score_is_weighted_sum
  (knn_distances : dict (float * list nat)) (lof_scores : dict float)
  (reverse_knn : dict Z) (w_knn w_lof w_rknn : float) :
  0 < length knn_distances ->
  length knn_distances <= length lof_scores ->
  length knn_distances <= length reverse_knn ->
  exists knn_norm lof_norm rknn_norm isolation,
    normalize (map fst (dict_values knn_distances)) false = Ok knn_norm
    /\ normalize (dict_values lof_scores) false = Ok lof_norm
    /\ normalize (map float_of_int (dict_values reverse_knn)) true = Ok rknn_norm
    /\ compute_isolation_score knn_distances lof_scores reverse_knn
         (w_knn, w_lof, w_rknn) = Ok isolation
    /\ dict_keys isolation = seq 0 (length knn_distances)
    /\ forall item_id, item_id < length knn_distances ->
         exists a b c,
           dict_get knn_norm item_id = Ok a
           /\ dict_get lof_norm item_id = Ok b
           /\ dict_get rknn_norm item_id = Ok c
           /\ dict_get isolation item_id
              = Ok (w_knn * a + w_lof * b + w_rknn * c)%float.
Proof.
  intros Hpos Hlof Hrk.
  set (kv := map fst (dict_values knn_distances)).
  set (lv := dict_values lof_scores).
  set (rv := map float_of_int (dict_values reverse_knn)).
  assert (Lk : length kv = length knn_distances)
    by (unfold kv; now rewrite length_map, values_length).
  assert (Ll : length lv = length lof_scores) by apply values_length.
  assert (Lr : length rv = length reverse_knn)
    by (unfold rv; now rewrite length_map, values_length).
  assert (Ek := normalize_explicit kv false (nonempty_of_length kv ltac:(lia))).
  assert (El := normalize_explicit lv false (nonempty_of_length lv ltac:(lia))).
  assert (Er := normalize_explicit rv true (nonempty_of_length rv ltac:(lia))).
  do 3 eexists.
  exists (map (fun j => (j, (w_knn * norm_at kv false j + w_lof * norm_at lv false j
                              + w_rknn * norm_at rv true j)%float))
            (seq 0 (length knn_distances))).
  split; [exact Ek|]. split; [exact El|]. split; [exact Er|]. split; [|split].
  - unfold compute_isolation_score. fold kv lv rv. rewrite Ek, El, Er. cbn [bind].
    rewrite for_each_pure
      with (step := fun acc i =>
              dict_set i (w_knn * norm_at kv false i + w_lof * norm_at lv false i
                          + w_rknn * norm_at rv true i)%float acc).
    + unfold range. rewrite fold_set_range; [reflexivity|]. intros key [].
    + intros s i Hi. apply in_seq in Hi.
      rewrite !dict_get_tabulate by lia. reflexivity.
  - apply dict_keys_tabulate.
  - intros i Hi. do 3 eexists.
    rewrite !dict_get_tabulate by lia. repeat split.
Qed.

Lemma compute_isolation_score_is_weighted_sum_witness :
  exists knn_norm lof_norm rknn_norm isolation,
    normalize (map fst (dict_values [(0, (0.1%float, [1])); (1, (0.3%float, [0]))]))
      false = Ok knn_norm
    /\ normalize (dict_values [(0, 1.0%float); (1, 1.5%float)]) false = Ok lof_norm
    /\ normalize (map float_of_int (dict_values [(1, 1%Z); (0, 0%Z)])) true
       = Ok rknn_norm
    /\ compute_isolation_score [(0, (0.1%float, [1])); (1, (0.3%float, [0]))]
         [(0, 1.0%float); (1, 1.5%float)] [(1, 1%Z); (0, 0%Z)]
         (0.4, 0.4, 0.2)%float = Ok isolation
    /\ dict_keys isolation = seq 0 2
    /\ forall item_id, item_id < 2 ->
         exists a b c,
           dict_get knn_norm item_id = Ok a
           /\ dict_get lof_norm item_id = Ok b
           /\ dict_get rknn_norm item_id = Ok c
           /\ dict_get isolation item_id = Ok (0.4 * a + 0.4 * b + 0.2 * c)%float.
Proof.
  apply (compute_isolation_score_is_weighted_sum
           [(0, (0.1%float, [1])); (1, (0.3%float, [0]))]
           [(0, 1.0%float); (1, 1.5%float)] [(1, 1%Z); (0, 0%Z)]
           0.4%float 0.4%float 0.2%float); simpl; lia.
Defined.

(** The combining loop fails with [KeyError] at the first position that one
    of the two other maps does not have. *)
Lemma isolation_loop_raises (fa fb fc : nat -> float) (na nb nc n : nat)
  (w_knn w_lof w_rknn : float) :
  n <= na -> nb < n \/ nc < n ->
  for_each
    (fun isolation item_id =>
       a <- dict_get (map (fun j => (j, fa j)) (seq 0 na)) item_id ;;
       b <- dict_get (map (fun j => (j, fb j)) (seq 0 nb)) item_id ;;
       c <- dict_get (map (fun j => (j, fc j)) (seq 0 nc)) item_id ;;
       let score := (w_knn * a + w_lof * b + w_rknn * c)%float in
       Ok (dict_set item_id score isolation))
    (seq 0 n) [] = Raise KeyError.
Proof.
  intros Hna Hshort. set (m := Nat.min nb nc).
  assert (Hm : m < n) by (unfold m; lia).
  replace n with (m + S (n - S m)) by lia. rewrite seq_app. simpl seq.
  eapply for_each_raises
    with (step := fun acc i =>
            dict_set i (w_knn * fa i + w_lof * fb i + w_rknn * fc i)%float acc).
  - intros s i Hi. apply in_seq in Hi.
    rewrite !dict_get_tabulate by (unfold m in *; lia). reflexivity.
  - intros s. rewrite dict_get_tabulate by lia. cbn [bind].
    destruct (Nat.le_gt_cases nb m) as [Hle|Hgt].
    + now rewrite dict_get_tabulate_out.
    + rewrite dict_get_tabulate by lia. cbn [bind].
      rewrite dict_get_tabulate_out by (unfold m in *; lia). reflexivity.
Qed.

(** What [compute_isolation_score] raises on maps of the wrong size: numpy's
    [ValueError] as soon as one of the three maps is empty (in the order
    kNN, LOF, reverse-kNN), and [KeyError] when the LOF map or the
    reverse-kNN map is shorter than the kNN map. *)
Theorem compute_isolation_score_raises
  (knn_distances : dict (float * list nat)) (lof_scores : dict float)
  (reverse_knn : dict Z) (weights : float * float * float) :
  (knn_distances = [] ->
   compute_isolation_score knn_distances lof_scores reverse_knn weights
   = Raise ValueError)
  /\ (knn_distances <> [] -> lof_scores = [] ->
      compute_isolation_score knn_distances lof_scores reverse_knn weights
      = Raise ValueError)
  /\ (knn_distances <> [] -> lof_scores <> [] -> reverse_knn = [] ->
      compute_isolation_score knn_distances lof_scores reverse_knn weights
      = Raise ValueError)
  /\ (0 < length lof_scores < length knn_distances -> reverse_knn <> [] ->
      compute_isolation_score knn_distances lof_scores reverse_knn weights
      = Raise KeyError)
  /\ (0 < length reverse_knn < length knn_distances ->
      length knn_distances <= length lof_scores ->
      compute_isolation_score knn_distances lof_scores reverse_knn weights
      = Raise KeyError).
Proof.
  assert (Hnorm : forall (vs : list float) inv, vs <> [] ->
            normalize vs inv
            = Ok (map (fun j => (j, norm_at vs inv j)) (seq 0 (length vs))))
    by apply normalize_explicit.
  assert (Hk : knn_distances <> [] -> map fst (dict_values knn_distances) <> []).
  { destruct knn_distances; [contradiction|discriminate]. }
  assert (Hl : lof_scores <> [] -> dict_values lof_scores <> []).
  { destruct lof_scores; [contradiction|discriminate]. }
  assert (Hr : reverse_knn <> [] ->
               map float_of_int (dict_values reverse_knn) <> []).
  { destruct reverse_knn; [contradiction|discriminate]. }
  destruct weights as [[w_knn w_lof] w_rknn].
  split; [intros ->; reflexivity|].
  split; [intros Hne ->; unfold compute_isolation_score;
          rewrite (Hnorm _ false (Hk Hne)); reflexivity|].
  split; [intros Hne Hne' ->; unfold compute_isolation_score;
          rewrite (Hnorm _ false (Hk Hne)), (Hnorm _ false (Hl Hne'));
          reflexivity|].
  split.
  - intros [Hpos Hlt] Hne.
    assert (Hkne : knn_distances <> []) by (apply nonempty_of_length; lia).
    assert (Hlne : lof_scores <> []) by now apply nonempty_of_length.
    unfold compute_isolation_score.
    rewrite (Hnorm _ false (Hk Hkne)), (Hnorm _ false (Hl Hlne)),
      (Hnorm _ true (Hr Hne)). cbn [bind].
    rewrite !length_map, !values_length.
    apply isolation_loop_raises; [lia|now left].
  - intros [Hpos Hlt] Hle.
    assert (Hkne : knn_distances <> []) by (apply nonempty_of_length; lia).
    assert (Hlne : lof_scores <> []) by (apply nonempty_of_length; lia).
    assert (Hrne : reverse_knn <> []) by now apply nonempty_of_length.
    unfold compute_isolation_score.
    rewrite (Hnorm _ false (Hk Hkne)), (Hnorm _ false (Hl Hlne)),
      (Hnorm _ true (Hr Hrne)). cbn [bind].
    rewrite !length_map, !values_length.
    apply isolation_loop_raises; [lia|now right].
Qed.

(** ** analyze: failures *)

Lemma compute_isolation_score_explicit
  (knn_distances : dict (float * list nat)) (lof_scores : dict float)
  (reverse_knn : dict Z) (w_knn w_lof w_rknn : float) :
  0 < length knn_distances ->
  length knn_distances <= length lof_scores ->
  length knn_distances <= length reverse_knn ->
  compute_isolation_score knn_distances lof_scores reverse_knn (w_knn, w_lof, w_rknn)
  = Ok (map (fun j =>
               (j, (w_knn * norm_at (map fst (dict_values knn_distances)) false j
                    + w_lof * norm_at (dict_values lof_scores) false j
                    + w_rknn * norm_at (map float_of_int (dict_values reverse_knn))
                                 true j)%float))
          (seq 0 (length knn_distances))).
Proof.
  intros Hpos Hlof Hrk.
  set (kv := map fst (dict_values knn_distances)).
  set (lv := dict_values lof_scores).
  set (rv := map float_of_int (dict_values reverse_knn)).
  assert (Lk : length kv = length knn_distances)
    by (unfold kv; now rewrite length_map, values_length).
  assert (Ll : length lv = length lof_scores) by apply values_length.
  assert (Lr : length rv = length reverse_knn)
    by (unfold rv; now rewrite length_map, values_length).
  unfold compute_isolation_score. fold kv lv rv.
  rewrite (normalize_explicit kv false (nonempty_of_length kv ltac:(lia))),
    (normalize_explicit lv false (nonempty_of_length lv ltac:(lia))),
    (normalize_explicit rv true (nonempty_of_length rv ltac:(lia))).
  cbn [bind].
  rewrite for_each_pure
    with (step := fun acc i =>
            dict_set i (w_knn * norm_at kv false i + w_lof * norm_at lv false i
                        + w_rknn * norm_at rv true i)%float acc).
  - unfold range. rewrite fold_set_range; [reflexivity|]. intros key [].
  - intros s i Hi. apply in_seq in Hi.
    rewrite !dict_get_tabulate by lia. reflexivity.
Qed.

Lemma knn_distances_length self :
  length (compute_knn_distances self) = count (index self).
Proof. rewrite compute_knn_distances_tabulate. apply length_tabulate. Qed.

(** An embedding matrix with fewer rows than [count()] (and fewer than
    [k + 1], so that the neutral LOF branch is taken) makes [analyze] raise
    instead of returning a partial result: [ValueError] when the matrix has
    no row at all, [KeyError] otherwise. *)
Theorem analyze_short_embedding_matrix_raises
  (LocalOutlierFactor : Z -> float -> list (list float) -> result (list float))
  (self : AnomalyDetector) (lof_contamination : float)
  (weights : float * float * float) :
  length (get_all_embeddings (index self)) < count (index self) ->
  (Z.of_nat (length (get_all_embeddings (index self))) < k self + 1)%Z ->
  analyze LocalOutlierFactor self lof_contamination weights
  = Raise match length (get_all_embeddings (index self)) with
          | 0 => ValueError
          | S _ => KeyError
          end.
Proof.
  intros Hrows Hsmall. unfold analyze.
  destruct (Nat.eqb_spec (count (index self)) 0) as [E|Hn]; [lia|].
  unfold compute_lof. apply Z.ltb_lt in Hsmall. rewrite Hsmall. cbn [bind].
  pose proof (knn_distances_length self) as Lk.
  pose proof (reverse_knn_length self) as Lr.
  assert (Hk : map fst (dict_values (compute_knn_distances self)) <> []).
  { apply nonempty_of_length. rewrite length_map, values_length. lia. }
  assert (Hr : map float_of_int (dict_values (compute_reverse_knn self)) <> []).
  { apply nonempty_of_length. rewrite length_map, values_length. lia. }
  destruct weights as [[w_knn w_lof] w_rknn].
  unfold compute_isolation_score.
  rewrite (normalize_explicit _ false Hk). cbn [bind].
  destruct (length (get_all_embeddings (index self))) as [|rows] eqn:Erows.
  - reflexivity.
  - assert (Hl : dict_values (dict_const (S rows) 1%float) <> []) by discriminate.
    rewrite (normalize_explicit _ false Hl), (normalize_explicit _ true Hr).
    cbn [bind]. rewrite !length_map, !values_length, Lk.
    rewrite dict_const_tabulate, length_tabulate.
    rewrite isolation_loop_raises; [reflexivity|lia|left; lia].
Qed.

Lemma analyze_short_embedding_matrix_raises_witness :
  analyze inlier_estimator
    (mkDetector (mkIndex 2 (fun _ _ => []) [[1%float]]) 10) 0.1%float
    default_weights
  = Raise KeyError.
Proof.
  apply (analyze_short_embedding_matrix_raises inlier_estimator
           (mkDetector (mkIndex 2 (fun _ _ => []) [[1%float]]) 10) 0.1%float
           default_weights); simpl; lia.
Defined.

(** [analyze] and [get_top_anomalys] catch nothing: when the index is not
    empty and large enough for the estimator to be called, an exception of
    the estimator comes out of [compute_lof], of [analyze] and of
    [get_top_anomalys] unchanged. *)
Theorem estimator_exception_propagates
  (LocalOutlierFactor : Z -> float -> list (list float) -> result (list float))
  (self : AnomalyDetector) (lof_contamination : float)
  (weights : float * float * float) (n : Z) (e : exn) :
  count (index self) <> 0 ->
  (k self + 1 <= Z.of_nat (length (get_all_embeddings (index self))))%Z ->
  LocalOutlierFactor
    (Z.min (k self) (Z.of_nat (length (get_all_embeddings (index self))) - 1))
    lof_contamination (get_all_embeddings (index self)) = Raise e ->
  compute_lof LocalOutlierFactor self lof_contamination = Raise e
  /\ analyze LocalOutlierFactor self lof_contamination weights = Raise e
  /\ get_top_anomalys LocalOutlierFactor self n lof_contamination = Raise e.
Proof.
  intros Hn Hbig Hraise.
  assert (Hlof : compute_lof LocalOutlierFactor self lof_contamination = Raise e).
  { unfold compute_lof.
    destruct (Z.ltb_spec (Z.of_nat (length (get_all_embeddings (index self))))
                (k self + 1)) as [Hlt|_]; [lia|].
    now rewrite Hraise. }
  assert (Han : forall w, analyze LocalOutlierFactor self lof_contamination w
                          = Raise e).
  { intros w. unfold analyze.
    destruct (Nat.eqb_spec (count (index self)) 0) as [E|_]; [contradiction|].
    now rewrite Hlof. }
  split; [exact Hlof|]. split; [apply Han|].
  unfold get_top_anomalys. now rewrite Han.
Qed.

Lemma estimator_exception_propagates_witness :
  compute_lof (fun _ _ _ => Raise ValueError) (mkDetector sample_index 2) 0.1%float
  = Raise ValueError
  /\ analyze (fun _ _ _ => Raise ValueError) (mkDetector sample_index 2) 0.1%float
       default_weights = Raise ValueError
  /\ get_top_anomalys (fun _ _ _ => Raise ValueError) (mkDetector sample_index 2)
       5 0.1%float = Raise ValueError.
Proof.
  apply (estimator_exception_propagates (fun _ _ _ => Raise ValueError)
           (mkDetector sample_index 2) 0.1%float default_weights 5%Z ValueError).
  - discriminate.
  - simpl. lia.
  - reflexivity.
Defined.

(** ** analyze: what the records hold *)

Lemma assign_ranks_In start scores s :
  In s (assign_ranks start scores) ->
  exists s0 r, In s0 scores /\ s = set_rank r s0.
Proof.
  revert start. induction scores as [|x rest IH]; intros start H; simpl in H.
  - contradiction.
  - destruct H as [<-|H].
    + exists x, start. split; [now left|reflexivity].
    + destruct (IH _ H) as (s0 & r & HIn & ->). exists s0, r.
      split; [now right|reflexivity].
Qed.

Lemma In_assign_ranks start scores s0 :
  In s0 scores -> exists r, In (set_rank r s0) (assign_ranks start scores).
Proof.
  revert start. induction scores as [|x rest IH]; intros start H; simpl.
  - contradiction.
  - destruct H as [->|H].
    + exists start. now left.
    + destruct (IH (S start) H) as [r Hr]. exists r. now right.
Qed.

Lemma tabulate_inj {V : Type} (f g : nat -> V) (len i : nat) :
  map (fun j => (j, f j)) (seq 0 len) = map (fun j => (j, g j)) (seq 0 len) ->
  i < len -> f i = g i.
Proof.
  intros E Hi.
  pose proof (dict_get_tabulate f len i Hi) as Hf.
  rewrite E, dict_get_tabulate in Hf by assumption. now injection Hf.
Qed.

(** Sorting and ranking keep every record whole: each record [analyze]
    returns carries, for its own [item_id], the entry of
    [compute_knn_distances], the neighbour ids in the order the index
    returned them, the score of [compute_lof], the count of
    [compute_reverse_knn] and the score of [compute_isolation_score]. *)
Theorem analyze_records_match_signals
  (LocalOutlierFactor : Z -> float -> list (list float) -> result (list float))
  (self : AnomalyDetector) (lof_contamination : float)
  (weights : float * float * float) (scores : list AnomalyScore) :
  length (get_all_embeddings (index self)) = count (index self) ->
  estimator_fits LocalOutlierFactor self lof_contamination ->
  analyze LocalOutlierFactor self lof_contamination weights = Ok scores ->
  forall s, In s scores ->
    item_id s < count (index self)
    /\ dict_get (compute_knn_distances self) (item_id s)
       = Ok (knn_distance s, neighbors s)
    /\ neighbors s = map fst (get_neighbors (index self) (item_id s) (k self))
    /\ dict_get (compute_reverse_knn self) (item_id s) = Ok (reverse_knn_count s)
    /\ exists lof_scores isolation,
         compute_lof LocalOutlierFactor self lof_contamination = Ok lof_scores
         /\ compute_isolation_score (compute_knn_distances self) lof_scores
              (compute_reverse_knn self) weights = Ok isolation
         /\ dict_get lof_scores (item_id s) = Ok (lof_score s)
         /\ dict_get isolation (item_id s) = Ok (isolation_score s).
Proof.
  intros Hrows Hfits Han s Hs.
  destruct (Nat.eq_dec (count (index self)) 0) as [E|Hn].
  - rewrite analyze_empty_index in Han by assumption.
    injection Han as <-. contradiction.
  - destruct (analyze_unfold LocalOutlierFactor self lof_contamination Hrows Hfits
                weights Hn) as (lofv & iso & Hlof & Hiso & Han').
    rewrite Han' in Han. injection Han as <-.
    apply assign_ranks_In in Hs. destruct Hs as (s0 & r & Hs0 & ->).
    apply (Permutation_in _
             (Permutation_sym (sort_desc_perm isolation_score _))) in Hs0.
    apply in_map_iff in Hs0. destruct Hs0 as (i & <- & Hi). apply in_seq in Hi.
    cbn [set_rank raw_score item_id knn_distance neighbors lof_score
           reverse_knn_count isolation_score].
    split; [lia|]. split; [|split; [|split]].
    + rewrite compute_knn_distances_tabulate, dict_get_tabulate by lia.
      now destruct (knn_entry self i).
    + unfold knn_entry. now destruct (get_neighbors (index self) i (k self)).
    + apply reverse_knn_entry. lia.
    + exists (map (fun j => (j, lofv j)) (seq 0 (count (index self)))),
        (map (fun j => (j, iso j)) (seq 0 (count (index self)))).
      split; [exact Hlof|]. split; [exact Hiso|].
      split; apply dict_get_tabulate; lia.
Qed.

Lemma analyze_records_match_signals_witness :
  item_id (mkAnomalyScore 1 infinity 1 0 nan [] 2) < 3
  /\ dict_get (compute_knn_distances (mkDetector orphan_index 10))
       (item_id (mkAnomalyScore 1 infinity 1 0 nan [] 2))
     = Ok (infinity, [])
  /\ [] = map fst (get_neighbors orphan_index 1 10%Z)
  /\ dict_get (compute_reverse_knn (mkDetector orphan_index 10)) 1 = Ok 0%Z
  /\ exists lof_scores isolation,
       compute_lof inlier_estimator (mkDetector orphan_index 10) 0.1%float
       = Ok lof_scores
       /\ compute_isolation_score
            (compute_knn_distances (mkDetector orphan_index 10)) lof_scores
            (compute_reverse_knn (mkDetector orphan_index 10)) default_weights
          = Ok isolation
       /\ dict_get lof_scores 1 = Ok 1%float
       /\ dict_get isolation 1 = Ok nan.
Proof.
  apply (analyze_records_match_signals inlier_estimator
           (mkDetector orphan_index 10) 0.1%float default_weights
           [mkAnomalyScore 0 0.1 1 1 0.2 [2] 1;
            mkAnomalyScore 1 infinity 1 0 nan [] 2;
            mkAnomalyScore 2 0.1 1 1 0.4 [0] 3]).
  - reflexivity.
  - intros H. vm_compute in H. discriminate.
  - vm_compute. reflexivity.
  - right. left. reflexivity.
Defined.

(** ** analyze on an index with a neighbourless item *)

Lemma norm_at_infinite_nan (values : list float) (inverse : bool) (i : nat) :
  Forall nonneg values -> Exists below_inf values ->
  i < length values -> nth i values 0%float = infinity ->
  is_nan (norm_at values inverse i) = true.
Proof.
  intros Hpos Hfin Hi Hinf.
  destruct (max_min_of_unbounded values Hpos Hfin)
    as (mx & mn & Hmx & Hmn & Imx & Bmn).
  { apply Exists_exists. exists infinity. split; [|reflexivity].
    rewrite <- Hinf. now apply nth_In. }
  unfold norm_at. rewrite Hmx, Hmn, (pos_inf_not_bounded mx mn Imx Bmn), Hinf.
  assert (Hv : is_nan ((infinity - mn) / (mx - mn))%float = true).
  { apply inf_div_inf; apply inf_sub_bounded; auto using infinity_is_pos_inf. }
  destruct inverse; [now apply nan_sub_r|exact Hv].
Qed.

Lemma knn_values_tabulate self :
  map fst (dict_values (compute_knn_distances self))
  = map (fun i => fst (knn_entry self i)) (seq 0 (count (index self))).
Proof.
  rewrite compute_knn_distances_tabulate, dict_values_tabulate.
  now rewrite map_map.
Qed.

Lemma knn_distances_get self i d ids :
  dict_get (compute_knn_distances self) i = Ok (d, ids) ->
  i < count (index self) /\ knn_entry self i = (d, ids).
Proof.
  rewrite compute_knn_distances_tabulate. intros H.
  destruct (Nat.lt_ge_cases i (count (index self))) as [Hlt|Hge].
  - rewrite dict_get_tabulate in H by assumption. injection H as H. now split.
  - rewrite dict_get_tabulate_out in H by assumption. discriminate.
Qed.

(** The defect behind the unsorted ranking, in general.  Take an index
    whose mean kNN distances are non-negative and of which at least one is
    finite.  Then every item without neighbours comes out of [analyze] with
    [knn_distance = inf] and an isolation score that is NaN, whatever the
    weights: its normalised distance is [inf / inf]. *)
Theorem analyze_neighbourless_item_scores_nan
  (LocalOutlierFactor : Z -> float -> list (list float) -> result (list float))
  (self : AnomalyDetector) (lof_contamination : float)
  (weights : float * float * float) (orphan : nat) :
  length (get_all_embeddings (index self)) = count (index self) ->
  estimator_fits LocalOutlierFactor self lof_contamination ->
  orphan < count (index self) ->
  get_neighbors (index self) orphan (k self) = [] ->
  (forall i d ids,
     dict_get (compute_knn_distances self) i = Ok (d, ids) ->
     (0 <=? d)%float = true) ->
  (exists j d ids,
     dict_get (compute_knn_distances self) j = Ok (d, ids)
     /\ (d <? infinity)%float = true) ->
  exists scores s,
    analyze LocalOutlierFactor self lof_contamination weights = Ok scores
    /\ In s scores
    /\ item_id s = orphan
    /\ knn_distance s = infinity
    /\ neighbors s = []
    /\ is_nan (isolation_score s) = true.
Proof.
  intros Hrows Hfits Ho Hnone Hpos (j & dj & idsj & Hj & Hjfin).
  set (n := count (index self)) in *.
  assert (Hn : n <> 0) by lia.
  destruct (analyze_unfold LocalOutlierFactor self lof_contamination Hrows Hfits
              weights Hn) as (lofv & iso & Hlof & Hiso & Han).
  fold n in Hlof, Hiso, Han.
  assert (Hentry : knn_entry self orphan = (infinity, [])).
  { unfold knn_entry. now rewrite Hnone. }
  assert (Hkv := knn_values_tabulate self). fold n in Hkv.
  assert (Lk := knn_distances_length self). fold n in Lk.
  (* the isolation score of the orphan is NaN *)
  assert (Hnan : is_nan (iso orphan) = true).
  { destruct weights as [[w_knn w_lof] w_rknn].
    rewrite compute_isolation_score_explicit in Hiso.
    - injection Hiso as Hiso. rewrite Lk in Hiso.
      rewrite <- (tabulate_inj _ _ n orphan Hiso Ho).
      apply nan_add_l, nan_add_l, nan_mul_r.
      apply norm_at_infinite_nan.
      + rewrite Hkv. apply Forall_forall. intros x Hx.
        apply in_map_iff in Hx. destruct Hx as (i & <- & Hi). apply in_seq in Hi.
        apply (Hpos i (fst (knn_entry self i)) (snd (knn_entry self i))).
        rewrite compute_knn_distances_tabulate, dict_get_tabulate by (fold n; lia).
        now destruct (knn_entry self i).
      + apply knn_distances_get in Hj. destruct Hj as [Hjn Hje].
        apply Exists_exists. exists dj. split; [|exact Hjfin].
        rewrite Hkv. apply in_map_iff. exists j. rewrite Hje.
        split; [reflexivity|]. apply in_seq. fold n in Hjn. lia.
      + rewrite Hkv, length_map, length_seq. exact Ho.
      + rewrite Hkv.
        rewrite (nth_indep _ 0%float (fst (knn_entry self 0)))
          by (rewrite length_map, length_seq; exact Ho).
        rewrite (map_nth (fun i => fst (knn_entry self i))).
        rewrite seq_nth by exact Ho. simpl. now rewrite Hentry.
    - lia.
    - rewrite Lk, length_tabulate. lia.
    - rewrite Lk. apply reverse_knn_length. }
  destruct (In_assign_ranks 1
              (sort_desc isolation_score (map (raw_score self lofv iso) (seq 0 n)))
              (raw_score self lofv iso orphan)) as [r Hr].
  { apply (Permutation_in _ (sort_desc_perm isolation_score _)).
    apply in_map. apply in_seq. lia. }
  eexists. exists (set_rank r (raw_score self lofv iso orphan)).
  split; [exact Han|]. split; [exact Hr|].
  cbn [set_rank raw_score item_id knn_distance neighbors isolation_score].
  rewrite Hentry. repeat split. exact Hnan.
Qed.

Lemma analyze_neighbourless_item_scores_nan_witness :
  exists scores s,
    analyze inlier_estimator (mkDetector orphan_index 10) 0.1%float
      (0.5, 0.25, 0.25)%float = Ok scores
    /\ In s scores
    /\ item_id s = 1
    /\ knn_distance s = infinity
    /\ neighbors s = []
    /\ is_nan (isolation_score s) = true.
Proof.
  apply (analyze_neighbourless_item_scores_nan inlier_estimator
           (mkDetector orphan_index 10) 0.1%float (0.5, 0.25, 0.25)%float 1).
  - reflexivity.
  - intros H. vm_compute in H. discriminate.
  - simpl. lia.
  - reflexivity.
  - intros i d ids H.
    destruct i as [|[|[|i]]]; vm_compute in H; try discriminate;
      injection H as <- _; reflexivity.
  - exists 0, 0.1%float, [2]. split; reflexivity.
Defined.

(** ** analyze on a single item *)

Lemma float_self_eq (x : float) : is_nan x = false -> (x =? x)%float = true.
Proof. unfold is_nan. now destruct (x =? x)%float. Qed.

Lemma norm_at_singleton (x : float) (inverse : bool) :
  is_nan x = false -> norm_at [x] inverse 0 = 0.5%float.
Proof.
  intros Hx. unfold norm_at. cbn [Np.max Np.min fold_left].
  now rewrite (float_self_eq x Hx).
Qed.

(** The smallest non-empty index.  With one item, [k >= 1] and a mean
    distance that is not NaN, each of the three signals is a constant
    array, so the item gets rank 1, LOF 1.0 and the isolation score
    [w_knn * 0.5 + w_lof * 0.5 + w_rknn * 0.5], which is exactly 0.5 under
    the default weights; the estimator is not called. *)
Theorem analyze_single_item
  (LocalOutlierFactor : Z -> float -> list (list float) -> result (list float))
  (self : AnomalyDetector) (lof_contamination : float)
  (w_knn w_lof w_rknn : float) :
  count (index self) = 1 ->
  conforming (index self) (k self) ->
  (1 <= k self)%Z ->
  (forall d ids,
     dict_get (compute_knn_distances self) 0 = Ok (d, ids) -> is_nan d = false) ->
  exists s,
    analyze LocalOutlierFactor self lof_contamination (w_knn, w_lof, w_rknn)
    = Ok [s]
    /\ item_id s = 0 /\ rank s = 1 /\ lof_score s = 1%float
    /\ isolation_score s = (w_knn * 0.5 + w_lof * 0.5 + w_rknn * 0.5)%float
    /\ ((w_knn, w_lof, w_rknn) = default_weights -> isolation_score s = 0.5%float).
Proof.
  intros Hone Hconf Hk Hknown.
  pose proof (conforming_rows _ _ Hconf) as Hrows.
  assert (Hsmall : (Z.of_nat (length (get_all_embeddings (index self)))
                    <? k self + 1)%Z = true).
  { apply Z.ltb_lt. rewrite Hrows, Hone. lia. }
  assert (Hfits : estimator_fits LocalOutlierFactor self lof_contamination).
  { intros H. cbv zeta in H. congruence. }
  assert (Hn : count (index self) <> 0) by lia.
  destruct (analyze_unfold LocalOutlierFactor self lof_contamination Hrows Hfits
              (w_knn, w_lof, w_rknn) Hn) as (lofv & iso & Hlof & Hiso & Han).
  rewrite Hone in Hlof, Hiso, Han. cbn [seq map] in Hlof, Hiso, Han.
  (* the LOF score is the neutral one *)
  assert (Hl0 : lofv 0 = 1%float).
  { unfold compute_lof in Hlof. rewrite Hsmall, Hrows, Hone in Hlof.
    now injection Hlof as ->. }
  (* the reverse-kNN mapping has the single key 0 *)
  assert (Hkeys : dict_keys (compute_reverse_knn self) = [0]).
  { apply Permutation_length_1_inv, Permutation_sym.
    change [0] with (seq 0 1). rewrite <- Hone.
    apply NoDup_Permutation; [apply reverse_knn_NoDup|apply seq_NoDup|].
    intros id. rewrite reverse_knn_keys, in_seq. split; [|intros H; right; lia].
    intros [HIn|Hlt]; [apply (listings_in_range self) in HIn; [lia|assumption]|lia]. }
  assert (Hrk : exists v, compute_reverse_knn self = [(0, v)]
                          /\ (v = 0%Z \/ v = 1%Z)).
  { pose proof (reverse_knn_entry self 0 ltac:(lia)) as Hget.
    destruct (compute_reverse_knn self) as [|[k0 v0] [|? ?]];
      try discriminate Hkeys.
    injection Hkeys as ->. exists v0. split; [reflexivity|].
    unfold dict_get in Hget. simpl in Hget. injection Hget as ->.
    unfold listings. rewrite count_occ_concat_map.
    - rewrite Hone. simpl. destruct (existsb _ _); simpl; auto.
    - intros i Hi. apply in_seq in Hi. apply conforming_distinct; [assumption|lia]. }
  destruct Hrk as (v & Hrk & Hv).
  (* the three normalised signals are 0.5 *)
  assert (Hiso0 : iso 0 = (w_knn * 0.5 + w_lof * 0.5 + w_rknn * 0.5)%float).
  { rewrite compute_isolation_score_explicit in Hiso.
    - injection Hiso as Hiso. rewrite knn_distances_length, Hone in Hiso.
      cbn [seq map] in Hiso. injection Hiso as Hiso. rewrite <- Hiso.
      rewrite knn_values_tabulate, Hone, Hrk. cbn [seq map dict_values snd].
      rewrite Hl0. rewrite norm_at_singleton.
      + destruct Hv as [-> | ->]; reflexivity.
      + apply (Hknown (fst (knn_entry self 0)) (snd (knn_entry self 0))).
        rewrite compute_knn_distances_tabulate, dict_get_tabulate by lia.
        now destruct (knn_entry self 0).
    - rewrite knn_distances_length. lia.
    - rewrite knn_distances_length, Hone. simpl. lia.
    - rewrite knn_distances_length. apply reverse_knn_length. }
  eexists. split; [exact Han|].
  cbn [sort_desc fold_right insert_desc assign_ranks set_rank raw_score
         item_id rank lof_score isolation_score].
  repeat split; try assumption.
  intros E. injection E as -> -> ->. rewrite Hiso0. reflexivity.
Qed.

Lemma analyze_single_item_witness :
  exists s,
    analyze inlier_estimator
      (mkDetector (mkIndex 1 (fun _ _ => []) [[1; 0]%float]) 10) 0.1%float
      (0.4, 0.4, 0.2)%float = Ok [s]
    /\ item_id s = 0 /\ rank s = 1 /\ lof_score s = 1%float
    /\ isolation_score s = (0.4 * 0.5 + 0.4 * 0.5 + 0.2 * 0.5)%float
    /\ ((0.4, 0.4, 0.2)%float = default_weights -> isolation_score s = 0.5%float).
Proof.
  apply (analyze_single_item inlier_estimator
           (mkDetector (mkIndex 1 (fun _ _ => []) [[1; 0]%float]) 10) 0.1%float
           0.4%float 0.4%float 0.2%float).
  - reflexivity.
  - vm_compute. reflexivity.
  - simpl. lia.
  - intros d ids H. vm_compute in H. injection H as <- _. reflexivity.
Defined.

(** ** get_top_anomalys: the ranks returned *)

Lemma firstn_seq_min (m start len : nat) :
  firstn m (seq start len) = seq start (Nat.min m len).
Proof.
  revert start len. induction m as [|m IH]; intros start len; simpl.
  - reflexivity.
  - destruct len as [|len]; simpl; [reflexivity|]. now rewrite IH.
Qed.

(** For [n >= 0], [get_top_anomalys(n)] returns exactly the records ranked
    1, 2, ..., min(n, count), in this order. *)
Theorem get_top_anomalys_ranks
  (LocalOutlierFactor : Z -> float -> list (list float) -> result (list float))
  (self : AnomalyDetector) (n : Z) (lof_contamination : float) :
  conforming (index self) (k self) ->
  estimator_fits LocalOutlierFactor self lof_contamination ->
  (0 <= n)%Z ->
  exists top,
    get_top_anomalys LocalOutlierFactor self n lof_contamination = Ok top
    /\ map rank top = seq 1 (Nat.min (Z.to_nat n) (count (index self)))
    /\ length top = Nat.min (Z.to_nat n) (count (index self)).
Proof.
  intros Hconf Hfits Hn. apply conforming_rows in Hconf.
  destruct (analyze_ranked LocalOutlierFactor self lof_contamination
              default_weights Hconf Hfits) as (ranked & Han & Hlen & Hrank & _).
  unfold get_top_anomalys. rewrite Han. cbn [bind].
  eexists. split; [reflexivity|].
  rewrite slice_to_nonneg by assumption.
  assert (Hr : map rank (firstn (Z.to_nat n) ranked)
               = seq 1 (Nat.min (Z.to_nat n) (count (index self)))).
  { now rewrite <- firstn_map, Hrank, firstn_seq_min. }
  split; [exact Hr|].
  rewrite <- (length_map rank), Hr. apply length_seq.
Qed.

Lemma get_top_anomalys_ranks_witness :
  exists top,
    get_top_anomalys inlier_estimator (mkDetector sample_index 2) 2 0.1%float
    = Ok top
    /\ map rank top = seq 1 (Nat.min (Z.to_nat 2) 3)
    /\ length top = Nat.min (Z.to_nat 2) 3.
Proof.
  apply (get_top_anomalys_ranks inlier_estimator (mkDetector sample_index 2)
           2%Z 0.1%float).
  - vm_compute. reflexivity.
  - intros _. eexists. split; reflexivity.
  - lia.
Defined.

(** ** compute_knn_distances *)

(** For any index, [compute_knn_distances] has one entry per id, keyed
    0, 1, ..., count-1 in this order.  The entry of an item without
    neighbours is [(inf, [])]; the entry of any other item is the mean of
    the returned distances with the neighbour ids in the order the index
    returned them. *)
Theorem compute_knn_distances_entries (self : AnomalyDetector) :
  dict_keys (compute_knn_distances self) = seq 0 (count (index self))
  /\ (forall item, count (index self) <= item ->
        dict_get (compute_knn_distances self) item = Raise KeyError)
  /\ (forall item, item < count (index self) ->
        get_neighbors (index self) item (k self) = [] ->
        dict_get (compute_knn_distances self) item = Ok (infinity, []))
  /\ (forall item, item < count (index self) ->
        get_neighbors (index self) item (k self) <> [] ->
        dict_get (compute_knn_distances self) item
        = Ok (Np.mean (map snd (get_neighbors (index self) item (k self))),
              map fst (get_neighbors (index self) item (k self)))).
Proof.
  rewrite compute_knn_distances_tabulate. split; [apply dict_keys_tabulate|].
  split; [intros item Hi; now apply dict_get_tabulate_out|]. split.
  - intros item Hi He. rewrite dict_get_tabulate by assumption.
    unfold knn_entry. now rewrite He.
  - intros item Hi Hne. rewrite dict_get_tabulate by assumption.
    unfold knn_entry.
    destruct (get_neighbors (index self) item (k self)); [contradiction|reflexivity].
Qed.

(** ** compute_reverse_knn on any index *)

Fixpoint sum_values (d : dict Z) : Z :=
  match d with
  | [] => 0%Z
  | (_, v) :: rest => (v + sum_values rest)%Z
  end.

Lemma sum_values_set (d : dict Z) (key : nat) (v : Z) :
  sum_values (dict_set key v d) = (sum_values d - counter_get d key + v)%Z.
Proof.
  unfold counter_get. induction d as [|[k' v'] d IH]; simpl.
  - lia.
  - destruct (Nat.eqb_spec key k') as [->|Hne]; simpl; [lia|].
    rewrite IH. lia.
Qed.

Lemma sum_values_count_all (c : dict Z) (ids : list nat) :
  sum_values (count_all c ids) = (sum_values c + Z.of_nat (length ids))%Z.
Proof.
  unfold count_all. revert c. induction ids as [|i ids IH]; intros c.
  - simpl. lia.
  - cbn [fold_left length]. rewrite IH. unfold counter_incr.
    rewrite sum_values_set. lia.
Qed.

Lemma sum_values_fill_missing (c : dict Z) (ids : list nat) :
  sum_values (fill_missing c ids) = sum_values c.
Proof.
  unfold fill_missing. revert c. induction ids as [|i ids IH]; intros c; simpl.
  - reflexivity.
  - rewrite IH. destruct (dict_mem i c) eqn:E; [reflexivity|].
    rewrite sum_values_set. unfold counter_get, dict_mem in *.
    destruct (dict_find i c); [discriminate|lia].
Qed.

(** The keys of a dictionary that a loop visits with a step which appends
    the visited key when it is new and keeps the key sequence otherwise. *)
Fixpoint first_seen (ids : list nat) : list nat :=
  match ids with
  | [] => []
  | x :: rest => x :: filter (fun y => negb (Nat.eqb y x)) (first_seen rest)
  end.

Definition absent (seen : list nat) (y : nat) : bool :=
  negb (existsb (Nat.eqb y) seen).

Lemma absent_app seen more y :
  absent (seen ++ more) y = absent seen y && absent more y.
Proof. unfold absent. now rewrite existsb_app, negb_orb. Qed.

Lemma filter_filter {A : Type} (f g : A -> bool) (l : list A) :
  filter f (filter g l) = filter (fun x => g x && f x) l.
Proof.
  induction l as [|x l IH]; simpl; [reflexivity|].
  destruct (g x); simpl; [destruct (f x)|]; now rewrite IH.
Qed.

Lemma existsb_eqb_In (y : nat) (l : list nat) :
  existsb (Nat.eqb y) l = true <-> In y l.
Proof.
  rewrite existsb_exists. split.
  - intros (x & Hx & E). apply Nat.eqb_eq in E. now subst.
  - intros H. exists y. split; [assumption|apply Nat.eqb_refl].
Qed.

Section KeyOrder.

Variable touch : dict Z -> nat -> dict Z.
Hypothesis touch_keys : forall d i,
  dict_keys (touch d i) = if dict_mem i d then dict_keys d else dict_keys d ++ [i].

Lemma fold_touch_keys (ids : list nat) (d : dict Z) :
  dict_keys (fold_left touch ids d)
  = dict_keys d ++ filter (absent (dict_keys d)) (first_seen ids).
Proof.
  revert d. induction ids as [|x ids IH]; intros d; simpl.
  - now rewrite app_nil_r.
  - rewrite IH, touch_keys. destruct (dict_mem x d) eqn:E.
    + apply dict_mem_true in E.
      assert (Hx : absent (dict_keys d) x = false).
      { unfold absent. now rewrite (proj2 (existsb_eqb_In x _) E). }
      rewrite Hx, filter_filter. f_equal. apply filter_ext_in. intros y _.
      destruct (Nat.eqb_spec y x) as [->|Hne]; simpl; [now rewrite Hx|reflexivity].
    + assert (Hx : absent (dict_keys d) x = true).
      { unfold absent. destruct (existsb (Nat.eqb x) (dict_keys d)) eqn:Ex;
          [|reflexivity].
        apply existsb_eqb_In, dict_mem_true in Ex. congruence. }
      rewrite Hx, <- app_assoc. simpl. do 2 f_equal.
      rewrite filter_filter. apply filter_ext. intros y.
      rewrite absent_app. unfold absent at 2. simpl.
      rewrite orb_false_r. apply andb_comm.
Qed.

End KeyOrder.

Lemma first_seen_NoDup (ids : list nat) : NoDup ids -> first_seen ids = ids.
Proof.
  induction ids as [|x ids IH]; intros H; simpl; [reflexivity|].
  inversion H as [|? ? Hx Hrest]; subst. rewrite IH by assumption. f_equal.
  apply forallb_filter_id. apply forallb_forall. intros y Hy.
  apply negb_true_iff, Nat.eqb_neq. intros ->. contradiction.
Qed.

Lemma first_seen_In (ids : list nat) (y : nat) : In y (first_seen ids) <-> In y ids.
Proof.
  induction ids as [|x ids IH]; simpl; [tauto|].
  rewrite filter_In, IH, negb_true_iff, Nat.eqb_neq.
  destruct (Nat.eq_dec x y) as [->|Hne]; [tauto|]. intuition congruence.
Qed.

(** For any index: no key occurs twice, every listing is counted exactly
    once (the counts add up to the number of neighbour pairs the queries
    returned), and the keys come in insertion order: first the listed ids
    in the order of their first listing, then the never-listed ids in
    ascending order.  [reverse_knn.values()] follows this order, not the
    id order. *)
Theorem compute_reverse_knn_order_and_total (self : AnomalyDetector) :
  NoDup (dict_keys (compute_reverse_knn self))
  /\ sum_values (compute_reverse_knn self)
     = Z.of_nat
         (list_sum
            (map (fun item_id =>
                    length (get_neighbors (index self) item_id (k self)))
               (range (count (index self)))))
  /\ dict_keys (compute_reverse_knn self)
     = first_seen (listings self)
       ++ filter (fun item_id => negb (existsb (Nat.eqb item_id) (listings self)))
            (range (count (index self))).
Proof.
  split; [apply reverse_knn_NoDup|]. rewrite compute_reverse_knn_unfold. split.
  - rewrite sum_values_fill_missing, sum_values_count_all. simpl.
    unfold listings. rewrite length_concat, map_map. f_equal. f_equal.
    apply map_ext. intros i. apply length_map.
  - unfold fill_missing.
    rewrite (fold_touch_keys
               (fun rc i => if dict_mem i rc then rc else dict_set i 0%Z rc)).
    + unfold count_all. rewrite (fold_touch_keys counter_incr).
      * simpl. unfold range.
        rewrite (first_seen_NoDup (seq 0 _)) by apply seq_NoDup.
        rewrite (forallb_filter_id (absent [])) by (apply forallb_forall; reflexivity).
        f_equal. apply filter_ext. intros y. unfold absent. f_equal.
        apply eq_true_iff_eq. rewrite !existsb_eqb_In. apply first_seen_In.
      * intros d i. unfold counter_incr. apply dict_keys_set.
    + intros d i. destruct (dict_mem i d) eqn:E; [reflexivity|].
      rewrite dict_keys_set. now rewrite E.
Qed.

Lemma dict_values_by_key (d : dict Z) :
  NoDup (dict_keys d) -> dict_values d = map (counter_get d) (dict_keys d).
Proof.
  induction d as [|[k0 v0] d IH]; intros H; simpl; [reflexivity|].
  inversion H as [|? ? Hk Hd]; subst.
  unfold counter_get at 1. simpl. rewrite Nat.eqb_refl. f_equal.
  rewrite IH by assumption. apply map_ext_in. intros key Hkey.
  unfold counter_get. simpl.
  destruct (Nat.eqb_spec key k0) as [->|Hne]; [contradiction|reflexivity].
Qed.

Lemma reverse_knn_counter_get self key :
  counter_get (compute_reverse_knn self) key
  = Z.of_nat (count_occ Nat.eq_dec (listings self) key).
Proof.
  rewrite compute_reverse_knn_unfold, fill_missing_get, count_all_get.
  reflexivity.
Qed.

(** Position by position, [reverse_knn.values()] holds the number of
    listings of the key at that position.  When item 0 has a neighbour, the
    first key of the mapping is the first neighbour of item 0, so that
    position 0 of [values()], which [compute_isolation_score] uses for item
    0, holds the count of that neighbour (of item 0 itself only if item 0
    lists itself first). *)
Theorem compute_reverse_knn_first_position
  (self : AnomalyDetector) (first : nat) (d : float) (rest : list (nat * float)) :
  0 < count (index self) ->
  get_neighbors (index self) 0 (k self) = (first, d) :: rest ->
  dict_values (compute_reverse_knn self)
  = map (fun key => Z.of_nat (count_occ Nat.eq_dec (listings self) key))
      (dict_keys (compute_reverse_knn self))
  /\ exists keys values,
       dict_keys (compute_reverse_knn self) = first :: keys
       /\ dict_values (compute_reverse_knn self)
          = Z.of_nat (count_occ Nat.eq_dec (listings self) first) :: values
       /\ dict_get (compute_reverse_knn self) first
          = Ok (Z.of_nat (count_occ Nat.eq_dec (listings self) first)).
Proof.
  intros Hn Hfirst.
  assert (Hvals : dict_values (compute_reverse_knn self)
                  = map (fun key => Z.of_nat
                                      (count_occ Nat.eq_dec (listings self) key))
                      (dict_keys (compute_reverse_knn self))).
  { rewrite dict_values_by_key by apply reverse_knn_NoDup.
    apply map_ext. intros key. apply reverse_knn_counter_get. }
  split; [exact Hvals|].
  assert (Hl : exists more, listings self = first :: more).
  { unfold listings, range. destruct (count (index self)) as [|n]; [lia|].
    simpl. rewrite Hfirst. simpl. eexists. reflexivity. }
  destruct Hl as [more Hl].
  assert (Hkeys : exists keys, dict_keys (compute_reverse_knn self) = first :: keys).
  { rewrite compute_reverse_knn_unfold. unfold fill_missing.
    rewrite (fold_touch_keys
               (fun rc i => if dict_mem i rc then rc else dict_set i 0%Z rc)).
    - unfold count_all. rewrite (fold_touch_keys counter_incr).
      + rewrite Hl. simpl. eexists. reflexivity.
      + intros c i. unfold counter_incr. apply dict_keys_set.
    - intros c i. destruct (dict_mem i c) eqn:E; [reflexivity|].
      rewrite dict_keys_set. now rewrite E. }
  destruct Hkeys as [keys Hkeys]. exists keys. eexists.
  split; [exact Hkeys|]. split.
  - rewrite Hvals, Hkeys. reflexivity.
  - unfold dict_get.
    pose proof (reverse_knn_counter_get self first) as Hget.
    unfold counter_get in Hget.
    destruct (dict_find first (compute_reverse_knn self)) eqn:E.
    + now rewrite Hget.
    + apply dict_find_None in E. rewrite Hkeys in E. exfalso. apply E. now left.
Qed.

Lemma compute_reverse_knn_first_position_witness :
  dict_values (compute_reverse_knn (mkDetector sample_index 10))
  = map (fun key => Z.of_nat
                      (count_occ Nat.eq_dec (listings (mkDetector sample_index 10))
                         key))
      (dict_keys (compute_reverse_knn (mkDetector sample_index 10)))
  /\ exists keys values,
       dict_keys (compute_reverse_knn (mkDetector sample_index 10)) = 1 :: keys
       /\ dict_values (compute_reverse_knn (mkDetector sample_index 10))
          = Z.of_nat
              (count_occ Nat.eq_dec (listings (mkDetector sample_index 10)) 1)
            :: values
       /\ dict_get (compute_reverse_knn (mkDetector sample_index 10)) 1
          = Ok (Z.of_nat
                  (count_occ Nat.eq_dec (listings (mkDetector sample_index 10)) 1)).
Proof.
  apply (compute_reverse_knn_first_position (mkDetector sample_index 10)
           1 0.1%float [(2, 0.9%float)]).
  - simpl. lia.
  - reflexivity.
Defined.

(** ** explain_anomaly on an item without neighbours *)

(** A record whose [knn_distance] is [inf], as [compute_knn_distances]
    stores it for an item without neighbours, is always explained first by
    the high-distance clause, with the distance printed as [inf]. *)
Theorem explain_anomaly_infinite_distance (score : AnomalyScore) :
  knn_distance score = infinity ->
  exists rest,
    explain_anomaly score
    = ("High distance to neighbors (inf) - isolated in embedding space" ++ rest)%string.
Proof.
  destruct score as [item d l c iso nbs r].
  cbn [knn_distance]. intros ->.
  unfold explain_anomaly, gtb, append.
  cbn [knn_distance lof_score reverse_knn_count].
  change (0.5 <? infinity)%float with true. cbv iota.
  change (format_f 3 infinity) with "inf"%string.
  destruct (1.5 <? l)%float; [|destruct (1.2 <? l)%float];
    (destruct (c =? 0)%Z; [|destruct (c <? 3)%Z]);
    eexists; cbn [app String.concat]; simpl String.append; reflexivity.
Qed.

Lemma explain_anomaly_infinite_distance_witness :
  exists rest,
    explain_anomaly (mkAnomalyScore 1 infinity 1 0 nan [] 2)
    = ("High distance to neighbors (inf) - isolated in embedding space" ++ rest)%string.
Proof.
  apply (explain_anomaly_infinite_distance (mkAnomalyScore 1 infinity 1 0 nan [] 2)).
  reflexivity.
Defined.

(** ** compute_lof on a large index *)

(** When the embedding matrix has at least [k + 1] rows and the estimator
    answers, [compute_lof] returns one score per factor, keyed by position,
    and each score is the factor with its sign flipped. *)
Theorem compute_lof_negates_factors
  (LocalOutlierFactor : Z -> float -> list (list float) -> result (list float))
  (self : AnomalyDetector) (contamination : float) (factors : list float) :
  (k self + 1 <= Z.of_nat (length (get_all_embeddings (index self))))%Z ->
  LocalOutlierFactor
    (Z.min (k self) (Z.of_nat (length (get_all_embeddings (index self))) - 1))
    contamination (get_all_embeddings (index self)) = Ok factors ->
  exists lof_scores,
    compute_lof LocalOutlierFactor self contamination = Ok lof_scores
    /\ dict_keys lof_scores = seq 0 (length factors)
    /\ forall i, i < length factors ->
         dict_get lof_scores i = Ok (- nth i factors 0)%float.
Proof.
  intros Hbig Hfit. unfold compute_lof.
  destruct (Z.ltb_spec (Z.of_nat (length (get_all_embeddings (index self))))
              (k self + 1)) as [Hlt|_]; [lia|].
  rewrite Hfit. cbn [bind]. eexists. split; [reflexivity|].
  rewrite (dict_enumerate_tabulate _ (- 0)%float), length_map. split.
  - apply dict_keys_tabulate.
  - intros i Hi. rewrite dict_get_tabulate by assumption. f_equal.
    apply (map_nth PrimFloat.opp).
Qed.

Lemma compute_lof_negates_factors_witness :
  exists lof_scores,
    compute_lof inlier_estimator (mkDetector sample_index 2) 0.1%float
    = Ok lof_scores
    /\ dict_keys lof_scores = seq 0 (length [-1; -1; -1]%float)
    /\ forall i, i < length [-1; -1; -1]%float ->
         dict_get lof_scores i = Ok (- nth i [-1; -1; -1] 0)%float.
Proof.
  apply (compute_lof_negates_factors inlier_estimator (mkDetector sample_index 2)
           0.1%float [-1; -1; -1]%float).
  - simpl. lia.
  - reflexivity.
Defined.

(** ** Small indexes do not involve the estimator *)

(** When the embedding matrix has fewer than [k + 1] rows, the results of
    [compute_lof], [analyze] and [get_top_anomalys] are the same for any two
    estimators and any two contamination values. *)
Theorem small_index_ignores_estimator
  (estimator1 estimator2 : Z -> float -> list (list float) -> result (list float))
  (self : AnomalyDetector) (contamination1 contamination2 : float)
  (weights : float * float * float) (n : Z) :
  (Z.of_nat (length (get_all_embeddings (index self))) < k self + 1)%Z ->
  compute_lof estimator1 self contamination1
  = compute_lof estimator2 self contamination2
  /\ analyze estimator1 self contamination1 weights
     = analyze estimator2 self contamination2 weights
  /\ get_top_anomalys estimator1 self n contamination1
     = get_top_anomalys estimator2 self n contamination2.
Proof.
  intros Hsmall. apply Z.ltb_lt in Hsmall.
  assert (Hlof : forall est c,
            compute_lof est self c
            = Ok (dict_const (length (get_all_embeddings (index self))) 1%float)).
  { intros est c. unfold compute_lof. now rewrite Hsmall. }
  assert (Han : forall w, analyze estimator1 self contamination1 w
                          = analyze estimator2 self contamination2 w).
  { intros w. unfold analyze. now rewrite !Hlof. }
  split; [now rewrite !Hlof|]. split; [apply Han|].
  unfold get_top_anomalys. now rewrite Han.
Qed.

Lemma small_index_ignores_estimator_witness :
  compute_lof inlier_estimator (mkDetector sample_index 10) 0.1%float
  = compute_lof (fun _ _ _ => Raise ValueError) (mkDetector sample_index 10)
      0.5%float
  /\ analyze inlier_estimator (mkDetector sample_index 10) 0.1%float
       default_weights
     = analyze (fun _ _ _ => Raise ValueError) (mkDetector sample_index 10)
         0.5%float default_weights
  /\ get_top_anomalys inlier_estimator (mkDetector sample_index 10) 2 0.1%float
     = get_top_anomalys (fun _ _ _ => Raise ValueError)
         (mkDetector sample_index 10) 2 0.5%float.
Proof.
  apply (small_index_ignores_estimator inlier_estimator
           (fun _ _ _ => Raise ValueError) (mkDetector sample_index 10)
           0.1%float 0.5%float default_weights 2%Z).
  simpl. lia.
Defined.
